(** * Document storage service: versioned uploads and analysis records

    A shallow embedding of [app/main.py], [app/models.py] and
    [app/schemas.py].  The two SQL tables are lists of rows in insertion
    order, the storage directory is a finite map from paths to file
    contents, and every request handler is a function from the store to an
    outcome and the store that the request leaves behind.

    What the handlers take from their surroundings is an argument of the
    handler: the clock reading that [default=datetime.utcnow] stores in
    [uploaded_at], and what the file system does with the write of an
    upload.  The database itself is taken to answer every query and to
    accept every commit.  Three of its rules are spelled out here: an
    [Integer] primary key is one more than the largest key of the table,
    [.first()] without an order takes the row inserted first, and rows with
    equal sort keys keep whatever order the sort gives them (no property
    below relies on that order). *)

From stdpp Require Import base numbers list strings gmap sorting pretty.
From Stdlib.Strings Require Import Ascii Byte.

Local Open Scope string_scope.
Local Open Scope list_scope.
Local Open Scope Z_scope.

(** ** Strings *)

(** Python's [sub in s] on strings. *)
Definition contains (sub s : string) : Prop :=
  ∃ pre post, s = pre +:+ sub +:+ post.

(** [str(n)] for a Python integer: decimal digits, a leading minus sign for
    negative numbers. *)
Definition str (n : Z) : string := pretty n.

(** ** app/main.py: mock_ai_analysis *)

(** The four f-strings of [mock_ai_analysis], one per branch. *)
Definition small_text (file_name : string) (file_size version : Z) : string :=
  "Файл '" +:+ file_name +:+ "' очень маленький (" +:+ str file_size
    +:+ " байт), версия " +:+ str version +:+ ". Изменения минимальны.".

Definition relatively_small_text (file_name : string) (file_size : Z) : string :=
  "Файл '" +:+ file_name +:+ "' относительно небольшой (" +:+ str file_size
    +:+ " байт), новое изменение выглядит незначительным.".

Definition medium_text (file_name : string) (file_size version : Z) : string :=
  "Файл '" +:+ file_name +:+ "' среднего размера (" +:+ str file_size
    +:+ " байт), версия " +:+ str version +:+ ". Возможны существенные изменения.".

Definition large_text (file_name : string) (file_size version : Z) : string :=
  "Файл '" +:+ file_name +:+ "' большой (" +:+ str file_size
    +:+ " байт), версия " +:+ str version
    +:+ ". Документ содержит значительный объем данных.".

Definition mock_ai_analysis (file_name : string) (file_size version : Z) : string :=
  if bool_decide (file_size < 10000) then small_text file_name file_size version
  else if bool_decide (file_size < 100000) then relatively_small_text file_name file_size
  else if bool_decide (file_size < 1000000) then medium_text file_name file_size version
  else large_text file_name file_size version.

(** The buckets of the size table and the text of each. *)
Inductive bucket := Small | RelativelySmall | Medium | Large.

Definition bucket_text (b : bucket) (file_name : string) (file_size version : Z)
    : string :=
  match b with
  | Small => small_text file_name file_size version
  | RelativelySmall => relatively_small_text file_name file_size
  | Medium => medium_text file_name file_size version
  | Large => large_text file_name file_size version
  end.

(** ** Time stamps

    A [datetime] value is the number of microseconds since
    0001-01-01T00:00:00 of the proleptic Gregorian calendar, the linear
    scale on which Python compares and subtracts naive [datetime]s and on
    which the database orders a [DateTime] column. *)
Definition datetime := Z.

Fixpoint zfill (width : nat) (s : string) : string :=
  match width with
  | O => s
  | S w => if bool_decide (String.length s < width)%nat then "0" +:+ zfill w s else s
  end.

(** Year, month and day of a day count (day 0 is 0001-01-01). *)
Definition ymd_of_days (days : Z) : Z * Z * Z :=
  let z := days + 306 in
  let era := z `div` 146097 in
  let doe := z `mod` 146097 in
  let yoe := (doe - doe `div` 1460 + doe `div` 36524 - doe `div` 146096) `div` 365 in
  let doy := doe - (365 * yoe + yoe `div` 4 - yoe `div` 100) in
  let mp := (5 * doy + 2) `div` 153 in
  let d := doy - (153 * mp + 2) `div` 5 + 1 in
  let m := if bool_decide (mp < 10) then mp + 3 else mp - 9 in
  let y := yoe + era * 400 + (if bool_decide (m ≤ 2) then 1 else 0) in
  (y, m, d).

(** [datetime.isoformat()]: the fraction is printed only when it is not
    zero. *)
Definition isoformat (t : datetime) : string :=
  let us := t `mod` 1000000 in
  let s := t `div` 1000000 in
  let '(y, m, d) := ymd_of_days (s `div` 86400) in
  zfill 4 (str y) +:+ "-" +:+ zfill 2 (str m) +:+ "-" +:+ zfill 2 (str d)
    +:+ "T" +:+ zfill 2 (str ((s `div` 3600) `mod` 24))
    +:+ ":" +:+ zfill 2 (str ((s `div` 60) `mod` 60))
    +:+ ":" +:+ zfill 2 (str (s `mod` 60))
    +:+ (if bool_decide (us = 0) then "" else "." +:+ zfill 6 (str us)).

(** ** app/models.py: the rows of the two tables *)

Module FileModel.
Record t := mk {
  id : Z;
  original_name : string;
  version : Z;
  path : string;
  size : Z;
  uploaded_by : Z;
  uploaded_at : datetime
}.
End FileModel.

Module Analysis.
Record t := mk {
  id : Z;
  file_id : Z;
  result : string
}.

(** [row.result = r]: the assignment of [analyze_file]. *)
Definition set_result (r : string) (row : t) : t :=
  {| id := id row; file_id := file_id row; result := r |}.
End Analysis.

(** ** app/schemas.py: the response bodies *)

Module FileResponse.
Record t := mk {
  id : Z; file_name : string; version : Z; size : Z; uploaded_at : datetime
}.
End FileResponse.

Module FileUploadResponse.
Record t := mk {
  id : Z; file_name : string; version : Z; size : Z; uploaded_at : datetime
}.
End FileUploadResponse.

Module FileListItem.
Record t := mk {
  id : Z; file_name : string; version : Z; size : Z; uploaded_at : string
}.
End FileListItem.

Module AnalysisResponse.
Record t := mk { file_id : Z; analysis_id : Z; result : string }.
End AnalysisResponse.

Module AnalysisResultResponse.
Record t := mk {
  file_id : Z; file_name : string; version : Z; analysis_result : string
}.
End AnalysisResultResponse.

(** ** The store: both tables and the storage directory *)

Record Store := mkStore {
  files : list FileModel.t;
  analysis : list Analysis.t;
  storage : gmap string (list byte)
}.

(** What [init_db] and [os.makedirs] leave on a fresh deployment. *)
Definition fresh : Store := {| files := []; analysis := []; storage := ∅ |}.

(** What a handler hands back: the response model, an [HTTPException]
    raised by the handler, or an [OSError] raised by [open] or [write],
    which the handler does not catch. *)
Inductive outcome (A : Type) : Type :=
  | Ok (body : A)
  | HTTPException (status_code : Z) (detail : string)
  | OSError.
Arguments Ok {A} body.
Arguments HTTPException {A} status_code detail.
Arguments OSError {A}.

(** What the file system does with [open(filepath, "wb")] followed by
    [f.write(contents)]; the handler cannot choose it. *)
Inductive disk :=
  | Written
  | OpenFailed
  | WriteFailed (left_behind : list byte).

(** ** The queries of the handlers *)

(** [order_by(key.desc())]. *)
Definition desc {A} (key : A → Z) : relation A := λ a b, key b ≤ key a.

#[global] Instance desc_dec {A} (key : A → Z) : RelDecision (desc key) :=
  λ a b, decide (key b ≤ key a).

Definition order_by_desc {A} (key : A → Z) (rows : list A) : list A :=
  merge_sort (desc key) rows.

(** [.first()]: the first row, [None] when there is none. *)
Definition first {A} (rows : list A) : option A := head rows.

(** The value an [Integer] primary key gets on insertion: one more than the
    largest key of the table, 1 in an empty table. *)
Definition next_id {A} (key : A → Z) (rows : list A) : Z :=
  1 + foldr Z.max 0 (key <$> rows).

(** [os.path.join] on two components. *)
Definition is_absolute (p : string) : bool :=
  match p with
  | String "/"%char _ => true
  | _ => false
  end.

Fixpoint ends_with_sep (p : string) : bool :=
  match p with
  | "" => true
  | String c "" => bool_decide (c = "/"%char)
  | String _ rest => ends_with_sep rest
  end.

Definition path_join (a b : string) : string :=
  if is_absolute b then b
  else if ends_with_sep a then a +:+ b
  else a +:+ "/" +:+ b.

Definition STORAGE_DIR : string := "./storage".

(** ** app/main.py: the request handlers *)

Definition file_not_found : string := "Файл не найден".

Definition analysis_not_found : string :=
  "Анализ не найден. Сначала запустите POST /files/{file_id}/analyze".

(** Lines 76 to 80 of [upload_file]: the row of that name with the largest
    version, and the version the upload gets. *)
Definition latest_version (name : string) (db : Store) : option FileModel.t :=
  first (order_by_desc FileModel.version
           (filter (λ f, FileModel.original_name f = name) (files db))).

Definition next_version (name : string) (db : Store) : Z :=
  match latest_version name db with
  | Some existing => FileModel.version existing + 1
  | None => 1
  end.

(** [filename] is [file.filename], [contents] what [file.read()] returns,
    [now] the value of [datetime.utcnow] when the row is inserted and [io]
    what the file system does with the write. *)
Definition upload_file (filename : option string) (contents : list byte)
    (now : datetime) (io : disk) (db : Store)
    : outcome FileUploadResponse.t * Store :=
  match filename with
  | None | Some "" => (HTTPException 400 "Файл не выбран", db)
  | Some name =>
    let version := next_version name db in
    let filename_on_disk := name +:+ "_v" +:+ str version in
    let filepath := path_join STORAGE_DIR filename_on_disk in
    match io with
    | OpenFailed => (OSError, db)
    | WriteFailed left_behind =>
      (OSError,
       {| files := files db; analysis := analysis db;
          storage := <[filepath := left_behind]> (storage db) |})
    | Written =>
      let file_db :=
        {| FileModel.id := next_id FileModel.id (files db);
           FileModel.original_name := name;
           FileModel.version := version;
           FileModel.path := filepath;
           FileModel.size := Z.of_nat (length contents);
           FileModel.uploaded_by := 1;
           FileModel.uploaded_at := now |} in
      (Ok {| FileUploadResponse.id := FileModel.id file_db;
             FileUploadResponse.file_name := name;
             FileUploadResponse.version := version;
             FileUploadResponse.size := Z.of_nat (length contents);
             FileUploadResponse.uploaded_at := FileModel.uploaded_at file_db |},
       {| files := files db ++ [file_db]; analysis := analysis db;
          storage := <[filepath := contents]> (storage db) |})
    end
  end.

Definition file_list_item (f : FileModel.t) : FileListItem.t :=
  {| FileListItem.id := FileModel.id f;
     FileListItem.file_name := FileModel.original_name f;
     FileListItem.version := FileModel.version f;
     FileListItem.size := FileModel.size f;
     FileListItem.uploaded_at := isoformat (FileModel.uploaded_at f) |}.

(** Line 119 of [get_files]. *)
Definition files_newest_first (db : Store) : list FileModel.t :=
  order_by_desc FileModel.uploaded_at (files db).

Definition get_files (db : Store) : outcome (list FileListItem.t) * Store :=
  (Ok (file_list_item <$> files_newest_first db), db).

(** [db.query(FileModel).filter(FileModel.id == file_id).first()]. *)
Definition file_by_id (file_id : Z) (db : Store) : option FileModel.t :=
  first (filter (λ f, FileModel.id f = file_id) (files db)).

(** [db.query(Analysis).filter(Analysis.file_id == file_id).first()]. *)
Definition analysis_of (file_id : Z) (db : Store) : option Analysis.t :=
  first (filter (λ a, Analysis.file_id a = file_id) (analysis db)).

(** The [UPDATE] that the commit issues for a row whose [result] was
    assigned: the row of that primary key gets the new value. *)
Definition update_result (row_id : Z) (r : string) (rows : list Analysis.t)
    : list Analysis.t :=
  (λ a, if bool_decide (Analysis.id a = row_id) then Analysis.set_result r a else a)
    <$> rows.

Definition analyze_file (file_id : Z) (db : Store)
    : outcome AnalysisResponse.t * Store :=
  match file_by_id file_id db with
  | None => (HTTPException 404 file_not_found, db)
  | Some file_db =>
    let existing_analysis := analysis_of file_id db in
    let analysis_result :=
      mock_ai_analysis (FileModel.original_name file_db) (FileModel.size file_db)
        (FileModel.version file_db) in
    match existing_analysis with
    | Some existing =>
      (Ok {| AnalysisResponse.file_id := file_id;
             AnalysisResponse.analysis_id := Analysis.id existing;
             AnalysisResponse.result := analysis_result |},
       {| files := files db;
          analysis := update_result (Analysis.id existing) analysis_result (analysis db);
          storage := storage db |})
    | None =>
      let new :=
        {| Analysis.id := next_id Analysis.id (analysis db);
           Analysis.file_id := file_id;
           Analysis.result := analysis_result |} in
      (Ok {| AnalysisResponse.file_id := file_id;
             AnalysisResponse.analysis_id := Analysis.id new;
             AnalysisResponse.result := analysis_result |},
       {| files := files db; analysis := analysis db ++ [new];
          storage := storage db |})
    end
  end.

Definition get_analysis (file_id : Z) (db : Store)
    : outcome AnalysisResultResponse.t * Store :=
  match file_by_id file_id db with
  | None => (HTTPException 404 file_not_found, db)
  | Some file_db =>
    match analysis_of file_id db with
    | None => (HTTPException 404 analysis_not_found, db)
    | Some a =>
      (Ok {| AnalysisResultResponse.file_id := file_id;
             AnalysisResultResponse.file_name := FileModel.original_name file_db;
             AnalysisResultResponse.version := FileModel.version file_db;
             AnalysisResultResponse.analysis_result := Analysis.result a |},
       db)
    end
  end.

Definition get_file_info (file_id : Z) (db : Store)
    : outcome FileResponse.t * Store :=
  match file_by_id file_id db with
  | None => (HTTPException 404 file_not_found, db)
  | Some file_db =>
    (Ok {| FileResponse.id := FileModel.id file_db;
           FileResponse.file_name := FileModel.original_name file_db;
           FileResponse.version := FileModel.version file_db;
           FileResponse.size := FileModel.size file_db;
           FileResponse.uploaded_at := FileModel.uploaded_at file_db |},
     db)
  end.

(** ** The id on its way to the database

    [file_id] is bound to an SQLite [INTEGER], a signed 64-bit value.  For
    a Python int outside that range the driver raises [OverflowError] when
    the first query of a handler runs; nothing has been read or written by
    then, and the handler does not catch it. *)
Definition fits_sqlite_integer (n : Z) : bool :=
  bool_decide (- 2 ^ 63 ≤ n < 2 ^ 63).

Inductive raising (A : Type) : Type :=
  | Returned (a : A)
  | OverflowError.
Arguments Returned {A} a.
Arguments OverflowError {A}.

(** Lines 139, 186 and 215: the query for the file, as the driver runs it. *)
Definition select_file (file_id : Z) (db : Store)
    : raising (option FileModel.t) :=
  if fits_sqlite_integer file_id then Returned (file_by_id file_id db)
  else OverflowError.

(** A handler of [/files/{file_id}...] from its first query on; [handler]
    is one of [analyze_file], [get_analysis] and [get_file_info], which say
    what follows once the id is bound. *)
Definition with_file_id {A} (handler : Z → Store → outcome A * Store)
    (file_id : Z) (db : Store) : raising (outcome A * Store) :=
  match select_file file_id db with
  | OverflowError => OverflowError
  | Returned _ => Returned (handler file_id db)
  end.

(** ** Requests served one after the other *)

Inductive request :=
  | Upload (filename : option string) (contents : list byte) (now : datetime)
      (io : disk)
  | GetFiles
  | Analyze (file_id : Z)
  | GetAnalysis (file_id : Z)
  | GetFileInfo (file_id : Z).

Inductive response :=
  | Uploaded (o : outcome FileUploadResponse.t)
  | Listed (o : outcome (list FileListItem.t))
  | Analyzed (o : outcome AnalysisResponse.t)
  | AnalysisFetched (o : outcome AnalysisResultResponse.t)
  | InfoFetched (o : outcome FileResponse.t).

Definition handle (r : request) (db : Store) : response * Store :=
  match r with
  | Upload filename contents now io =>
    let '(o, db') := upload_file filename contents now io db in (Uploaded o, db')
  | GetFiles => let '(o, db') := get_files db in (Listed o, db')
  | Analyze file_id =>
    let '(o, db') := analyze_file file_id db in (Analyzed o, db')
  | GetAnalysis file_id =>
    let '(o, db') := get_analysis file_id db in (AnalysisFetched o, db')
  | GetFileInfo file_id =>
    let '(o, db') := get_file_info file_id db in (InfoFetched o, db')
  end.

Fixpoint serve (rs : list request) (db : Store) : list response * Store :=
  match rs with
  | [] => ([], db)
  | r :: rest =>
    let '(o, db1) := handle r db in
    let '(os, db2) := serve rest db1 in
    (o :: os, db2)
  end.

(** The stores the service can be in: those that requests lead to from a
    fresh deployment. *)
Definition reachable (db : Store) : Prop := ∃ rs, (serve rs fresh).2 = db.

(** ** Vocabulary of the properties *)

(** The [Analysis] rows that belong to a file. *)
Definition analyses_for (file_id : Z) (db : Store) : list Analysis.t :=
  filter (λ a, Analysis.file_id a = file_id) (analysis db).

(** The invariant of the [analysis] table: primary keys are distinct and a
    file has at most one row. *)
Definition analysis_table_ok (db : Store) : Prop :=
  NoDup (Analysis.id <$> analysis db)
  ∧ ∀ f, (length (analyses_for f db) ≤ 1)%nat.

(** The primary key of the [Analysis] row that a query for [file_id] finds. *)
Definition stored_id (file_id : Z) (db : Store) : option Z :=
  Analysis.id <$> analysis_of file_id db.

(** The version a response reports for an upload of [name]. *)
Definition uploaded_version (name : string) (o : response) : option Z :=
  match o with
  | Uploaded (Ok body) =>
    if bool_decide (FileUploadResponse.file_name body = name)
    then Some (FileUploadResponse.version body) else None
  | _ => None
  end.

(** The uploads of [name] among the requests whose bytes reach the disk. *)
Definition is_upload_of (name : string) (r : request) : bool :=
  match r with
  | Upload (Some n) _ _ Written => bool_decide (n = name)
  | _ => false
  end.

(** The analysis id a response reports for an analysis of [file_id]. *)
Definition analyzed_id (file_id : Z) (o : response) : option Z :=
  match o with
  | Analyzed (Ok body) =>
    if bool_decide (AnalysisResponse.file_id body = file_id)
    then Some (AnalysisResponse.analysis_id body) else None
  | _ => None
  end.

(** In a listing, the entry of version [v] of [name] comes before the entry
    of version [w]. *)
Definition version_precedes (name : string) (v w : Z)
    (listing : list FileListItem.t) : Prop :=
  ∃ (i j : nat) x y,
    (i < j)%nat ∧ listing !! i = Some x ∧ listing !! j = Some y
    ∧ FileListItem.file_name x = name ∧ FileListItem.version x = v
    ∧ FileListItem.file_name y = name ∧ FileListItem.version y = w.

(** Line 84 of [upload_file]: the name of the file on disk. *)
Definition filename_on_disk (name : string) (version : Z) : string :=
  name +:+ "_v" +:+ str version.


(** The requests whose handlers only query. *)
Definition is_read (r : request) : bool :=
  match r with
  | GetFiles | GetAnalysis _ | GetFileInfo _ => true
  | Upload _ _ _ _ | Analyze _ => false
  end.

(** The uploads that go through: a file name, and the bytes reach the disk. *)
Definition is_completed_upload (r : request) : bool :=
  match r with
  | Upload (Some name) _ _ Written => bool_decide (name ≠ "")
  | _ => false
  end.

(** The body that [get_file_info] builds from a row. *)
Definition file_response (row : FileModel.t) : FileResponse.t :=
  {| FileResponse.id := FileModel.id row;
     FileResponse.file_name := FileModel.original_name row;
     FileResponse.version := FileModel.version row;
     FileResponse.size := FileModel.size row;
     FileResponse.uploaded_at := FileModel.uploaded_at row |}.

(** What [upload_file] puts in every row it inserts. *)
Definition file_row_ok (row : FileModel.t) : Prop :=
  FileModel.original_name row ≠ ""
  ∧ 1 ≤ FileModel.version row
  ∧ 0 ≤ FileModel.size row
  ∧ FileModel.uploaded_by row = 1
  ∧ FileModel.path row
    = path_join STORAGE_DIR
        (filename_on_disk (FileModel.original_name row) (FileModel.version row)).


(** Every [Analysis] row belongs to a stored file and holds the analysis
    text of that file. *)
Definition analyses_current (db : Store) : Prop :=
  ∀ a, a ∈ analysis db →
    ∃ row, file_by_id (Analysis.file_id a) db = Some row
      ∧ Analysis.result a
        = mock_ai_analysis (FileModel.original_name row) (FileModel.size row)
            (FileModel.version row).

(** Every [File] row is as [upload_file] makes it, and the file it names
    is on disk with as many bytes as the row says. *)
Definition files_on_disk (db : Store) : Prop :=
  ∀ row, row ∈ files db →
    file_row_ok row
    ∧ ∃ bytes, storage db !! FileModel.path row = Some bytes
        ∧ FileModel.size row = Z.of_nat (length bytes).

(** Whether a character occurs in a string. *)
Fixpoint has_char (c : ascii) (s : string) : bool :=
  match s with
  | "" => false
  | String d rest => bool_decide (d = c) || has_char c rest
  end.

(** * Properties *)

(** ** Formatting *)

Example mock_ai_analysis_1500 :
  mock_ai_analysis "report.pdf" 1500 1
  = "Файл 'report.pdf' очень маленький (1500 байт), версия 1. Изменения минимальны.".
Proof. vm_compute. reflexivity. Qed.

Example mock_ai_analysis_negative :
  mock_ai_analysis "a" (-5) 2
  = "Файл 'a' очень маленький (-5 байт), версия 2. Изменения минимальны.".
Proof. vm_compute. reflexivity. Qed.

Example isoformat_whole_second :
  isoformat 63897840426000000 = "2025-11-04T08:07:06".
Proof. vm_compute. reflexivity. Qed.

Example isoformat_leap_day :
  isoformat 63844847999000001 = "2024-02-29T23:59:59.000001".
Proof. vm_compute. reflexivity. Qed.

Lemma string_app_nil (s : string) : "" +:+ s = s.
Proof. reflexivity. Qed.

Lemma string_app_cons (c : ascii) (a b : string) :
  String c a +:+ b = String c (a +:+ b).
Proof. reflexivity. Qed.

Lemma string_app_length (a b : string) :
  String.length (a +:+ b) = (String.length a + String.length b)%nat.
Proof.
  induction a as [|c a IH]; [done|].
  rewrite string_app_cons. simpl. by rewrite IH.
Qed.

Lemma string_app_assoc (a b c : string) : (a +:+ b) +:+ c = a +:+ b +:+ c.
Proof.
  induction a as [|x a IH]; [done|].
  by rewrite !string_app_cons, IH.
Qed.

Lemma string_app_inj_r (a b t : string) : a +:+ t = b +:+ t → a = b.
Proof.
  revert b. induction a as [|c a IH]; intros [|d b] H.
  - done.
  - apply (f_equal String.length) in H.
    rewrite !string_app_length in H. simpl in H. lia.
  - apply (f_equal String.length) in H.
    rewrite !string_app_length in H. simpl in H. lia.
  - rewrite !string_app_cons in H. injection H as -> H. f_equal. by apply IH.
Qed.

Lemma contains_app_l (sub a b : string) : contains sub b → contains sub (a +:+ b).
Proof.
  intros (pre & post & ->). exists (a +:+ pre), post.
  by rewrite string_app_assoc.
Qed.

Lemma contains_here (sub post : string) : contains sub (sub +:+ post).
Proof. by exists "", post. Qed.

Create HintDb text.
#[local] Hint Resolve contains_app_l contains_here : text.

(** ** The analysis text *)

Lemma mock_small (file_name : string) (s version : Z) :
  s < 10000 →
  mock_ai_analysis file_name s version = small_text file_name s version.
Proof. intros. unfold mock_ai_analysis. by rewrite bool_decide_eq_true_2. Qed.

Lemma mock_relatively_small (file_name : string) (s version : Z) :
  10000 ≤ s < 100000 →
  mock_ai_analysis file_name s version = relatively_small_text file_name s.
Proof.
  intros. unfold mock_ai_analysis.
  rewrite bool_decide_eq_false_2 by lia. by rewrite bool_decide_eq_true_2 by lia.
Qed.

Lemma mock_medium (file_name : string) (s version : Z) :
  100000 ≤ s < 1000000 →
  mock_ai_analysis file_name s version = medium_text file_name s version.
Proof.
  intros. unfold mock_ai_analysis.
  rewrite !bool_decide_eq_false_2 by lia. by rewrite bool_decide_eq_true_2 by lia.
Qed.

Lemma mock_large (file_name : string) (s version : Z) :
  1000000 ≤ s →
  mock_ai_analysis file_name s version = large_text file_name s version.
Proof.
  intros. unfold mock_ai_analysis. by rewrite !bool_decide_eq_false_2 by lia.
Qed.

(** The four texts part ways right after the file name. *)
Lemma bucket_text_inj (file_name : string) (s version : Z) (b1 b2 : bucket) :
  bucket_text b1 file_name s version = bucket_text b2 file_name s version →
  b1 = b2.
Proof.
  destruct b1, b2; try done; unfold bucket_text, small_text,
    relatively_small_text, medium_text, large_text; intros H;
    do 2 apply (inj (String.app _)) in H;
    rewrite !string_app_cons in H; discriminate H.
Qed.

Lemma mock_in_some_bucket (file_name : string) (s version : Z) :
  ∃ b, mock_ai_analysis file_name s version = bucket_text b file_name s version.
Proof.
  unfold mock_ai_analysis. repeat case_bool_decide.
  - by exists Small.
  - by exists RelativelySmall.
  - by exists Medium.
  - by exists Large.
Qed.

(** C2. Every size falls in exactly one bucket of the table, lower bounds
    included: below 10000 the small text, from 10000 below 100000 the
    relatively small text, from 100000 below 1000000 the medium text, from
    1000000 on the large text, and the four texts differ from one another;
    the sizes 0, 9999, 10000, 99999, 100000, 999999 and 1000000 give small,
    small, relatively small, relatively small, medium, medium and large. *)
Theorem size_buckets (file_name : string) (s version : Z) :
  let small :=
    "Файл '" +:+ file_name +:+ "' очень маленький (" +:+ str s
      +:+ " байт), версия " +:+ str version +:+ ". Изменения минимальны." in
  let relatively_small :=
    "Файл '" +:+ file_name +:+ "' относительно небольшой (" +:+ str s
      +:+ " байт), новое изменение выглядит незначительным." in
  let medium :=
    "Файл '" +:+ file_name +:+ "' среднего размера (" +:+ str s
      +:+ " байт), версия " +:+ str version
      +:+ ". Возможны существенные изменения." in
  let large :=
    "Файл '" +:+ file_name +:+ "' большой (" +:+ str s
      +:+ " байт), версия " +:+ str version
      +:+ ". Документ содержит значительный объем данных." in
  (s < 10000 → mock_ai_analysis file_name s version = small)
  ∧ (10000 ≤ s < 100000 →
     mock_ai_analysis file_name s version = relatively_small)
  ∧ (100000 ≤ s < 1000000 → mock_ai_analysis file_name s version = medium)
  ∧ (1000000 ≤ s → mock_ai_analysis file_name s version = large)
  ∧ (small ≠ relatively_small ∧ small ≠ medium ∧ small ≠ large
     ∧ relatively_small ≠ medium ∧ relatively_small ≠ large ∧ medium ≠ large)
  ∧ mock_ai_analysis file_name 0 version
    = "Файл '" +:+ file_name +:+ "' очень маленький (0 байт), версия "
        +:+ str version +:+ ". Изменения минимальны."
  ∧ mock_ai_analysis file_name 9999 version
    = "Файл '" +:+ file_name +:+ "' очень маленький (9999 байт), версия "
        +:+ str version +:+ ". Изменения минимальны."
  ∧ mock_ai_analysis file_name 10000 version
    = "Файл '" +:+ file_name +:+ "' относительно небольшой (10000 байт), "
        +:+ "новое изменение выглядит незначительным."
  ∧ mock_ai_analysis file_name 99999 version
    = "Файл '" +:+ file_name +:+ "' относительно небольшой (99999 байт), "
        +:+ "новое изменение выглядит незначительным."
  ∧ mock_ai_analysis file_name 100000 version
    = "Файл '" +:+ file_name +:+ "' среднего размера (100000 байт), версия "
        +:+ str version +:+ ". Возможны существенные изменения."
  ∧ mock_ai_analysis file_name 999999 version
    = "Файл '" +:+ file_name +:+ "' среднего размера (999999 байт), версия "
        +:+ str version +:+ ". Возможны существенные изменения."
  ∧ mock_ai_analysis file_name 1000000 version
    = "Файл '" +:+ file_name +:+ "' большой (1000000 байт), версия "
        +:+ str version +:+ ". Документ содержит значительный объем данных.".
Proof.
  intros small relatively_small medium large.
  split; [apply mock_small|]. split; [apply mock_relatively_small|].
  split; [apply mock_medium|]. split; [apply mock_large|].
  split.
  - split_and!; intros Heq.
    + by apply (bucket_text_inj file_name s version Small RelativelySmall) in Heq.
    + by apply (bucket_text_inj file_name s version Small Medium) in Heq.
    + by apply (bucket_text_inj file_name s version Small Large) in Heq.
    + by apply (bucket_text_inj file_name s version RelativelySmall Medium) in Heq.
    + by apply (bucket_text_inj file_name s version RelativelySmall Large) in Heq.
    + by apply (bucket_text_inj file_name s version Medium Large) in Heq.
  - split_and!; reflexivity.
Qed.

(** C9. The analysis function has no lower bound on the size: for every
    size below 10000, negative ones included, and every name and version it
    returns the small text. *)
Theorem mock_ai_analysis_below_10000 (file_name : string) (s version : Z) :
  s < 10000 →
  mock_ai_analysis file_name s version
  = "Файл '" +:+ file_name +:+ "' очень маленький (" +:+ str s
      +:+ " байт), версия " +:+ str version +:+ ". Изменения минимальны.".
Proof. apply mock_small. Qed.

Lemma mock_ai_analysis_below_10000_witness :
  -5 < 10000
  ∧ mock_ai_analysis "a" (-5) 2
    = "Файл 'a' очень маленький (-5 байт), версия 2. Изменения минимальны.".
Proof.
  split; [lia|].
  rewrite (mock_ai_analysis_below_10000 "a" (-5) 2) by lia.
  vm_compute. reflexivity.
Defined.

Lemma str_inj (v w : Z) : str v = str w → v = w.
Proof. apply (inj pretty). Qed.

Lemma contains_version_field (v : Z) (post : string) :
  contains ("версия " +:+ str v) (" байт), версия " +:+ str v +:+ post).
Proof. exists " байт), ", post. by rewrite string_app_assoc. Qed.

Lemma mock_shows_version (file_name : string) (s version : Z) :
  ¬ (10000 ≤ s < 100000) →
  contains ("версия " +:+ str version) (mock_ai_analysis file_name s version).
Proof.
  intros Hs. unfold mock_ai_analysis. repeat case_bool_decide; try lia;
    unfold small_text, medium_text, large_text;
    do 4 apply contains_app_l; apply contains_version_field.
Qed.

Lemma mock_version_inj (file_name : string) (s v w : Z) :
  ¬ (10000 ≤ s < 100000) →
  mock_ai_analysis file_name s v = mock_ai_analysis file_name s w → v = w.
Proof.
  intros Hs. unfold mock_ai_analysis. repeat case_bool_decide; try lia;
    unfold small_text, medium_text, large_text; intros Heq;
    do 5 apply (inj (String.app _)) in Heq;
    by apply string_app_inj_r, str_inj in Heq.
Qed.

(** C10. For a size from 10000 below 100000 the text shows the file name
    and the size and no version: it is the same text for every version.
    The texts of the other three buckets show the version, and a different
    version gives a different text. *)
Theorem relatively_small_text_has_no_version (file_name : string) (s version : Z) :
  10000 ≤ s < 100000 →
  contains file_name (mock_ai_analysis file_name s version)
  ∧ contains (str s) (mock_ai_analysis file_name s version)
  ∧ (∀ v, mock_ai_analysis file_name s v = mock_ai_analysis file_name s version)
  ∧ (∀ s', ¬ (10000 ≤ s' < 100000) →
       contains ("версия " +:+ str version) (mock_ai_analysis file_name s' version)
       ∧ ∀ v, mock_ai_analysis file_name s' v
              = mock_ai_analysis file_name s' version → v = version).
Proof.
  intros Hs. split_and!.
  - rewrite mock_relatively_small by done. unfold relatively_small_text.
    auto with text.
  - rewrite mock_relatively_small by done. unfold relatively_small_text.
    auto with text.
  - intros v. by rewrite !mock_relatively_small.
  - intros s' Hs'. split; [by apply mock_shows_version|].
    intros v. by apply mock_version_inj.
Qed.

Lemma relatively_small_text_has_no_version_witness :
  10000 ≤ 50000 < 100000
  ∧ mock_ai_analysis "a.txt" 50000 7 = mock_ai_analysis "a.txt" 50000 3
  ∧ contains "версия 3" (mock_ai_analysis "a.txt" 1500 3).
Proof.
  assert (10000 ≤ 50000 < 100000) as H by lia.
  destruct (relatively_small_text_has_no_version "a.txt" 50000 3 H)
    as (_ & _ & Hsame & Hother).
  split; [exact H|]. split; [apply Hsame|].
  destruct (Hother 1500) as [Hshown _]; [lia | exact Hshown].
Defined.

(** ** Looking rows up *)

Section queries.
Context {A : Type} (P : A → Prop) `{!∀ x, Decision (P x)}.

Lemma first_filter_None (rows : list A) :
  first (filter P rows) = None ↔ ∀ x, x ∈ rows → ¬ P x.
Proof.
  unfold first. rewrite head_None. split.
  - intros Hnil x Hx HP.
    assert (x ∈ filter P rows) as Hin by (apply list_elem_of_filter; done).
    rewrite Hnil in Hin. by apply not_elem_of_nil in Hin.
  - intros Hnone. induction rows as [|y rows IH]; [done|].
    rewrite filter_cons. destruct (decide (P y)) as [HP|_].
    + exfalso. apply (Hnone y); [left | done].
    + apply IH. intros x Hx. apply Hnone. by right.
Qed.

Lemma first_filter_Some (rows : list A) (x : A) :
  first (filter P rows) = Some x → x ∈ rows ∧ P x.
Proof.
  intros Hx. apply head_Some_elem_of in Hx.
  apply list_elem_of_filter in Hx. tauto.
Qed.

Lemma first_filter_is_Some (rows : list A) :
  is_Some (first (filter P rows)) ↔ ∃ x, x ∈ rows ∧ P x.
Proof.
  split.
  - intros [x Hx]. exists x. by apply first_filter_Some.
  - intros (x & Hx & HP). apply not_eq_None_Some. intros Hnone.
    by apply (proj1 (first_filter_None rows) Hnone x).
Qed.
End queries.

(** ** Requests that find nothing *)

Lemma absent_file_id (f : Z) (db : Store) :
  (∀ row, row ∈ files db → FileModel.id row ≠ f) →
  analyze_file f db = (HTTPException 404 file_not_found, db)
  ∧ get_analysis f db = (HTTPException 404 file_not_found, db)
  ∧ get_file_info f db = (HTTPException 404 file_not_found, db).
Proof.
  intros Hnone.
  assert (file_by_id f db = None) as Hq by (by apply first_filter_None).
  unfold analyze_file, get_analysis, get_file_info. by rewrite Hq.
Qed.

(** C5, amended. For a file id in the signed 64-bit range that no [File]
    row has, analyze, get analysis and get file info each fail with the 404
    not-found error, return no body and leave the store as it was. *)
Theorem unknown_file_id_is_not_found (f : Z) (db : Store) :
  - 2 ^ 63 ≤ f < 2 ^ 63 →
  (∀ row, row ∈ files db → FileModel.id row ≠ f) →
  with_file_id analyze_file f db
  = Returned (HTTPException 404 "Файл не найден", db)
  ∧ with_file_id get_analysis f db
    = Returned (HTTPException 404 "Файл не найден", db)
  ∧ with_file_id get_file_info f db
    = Returned (HTTPException 404 "Файл не найден", db).
Proof.
  intros Hrange Hnone.
  destruct (absent_file_id f db Hnone) as (Ha & Hg & Hi).
  unfold with_file_id, select_file, fits_sqlite_integer.
  rewrite bool_decide_eq_true_2 by done. by rewrite Ha, Hg, Hi.
Qed.

Lemma unknown_file_id_is_not_found_witness :
  with_file_id analyze_file 999999 fresh
  = Returned (HTTPException 404 "Файл не найден", fresh)
  ∧ with_file_id get_analysis 999999 fresh
    = Returned (HTTPException 404 "Файл не найден", fresh)
  ∧ with_file_id get_file_info 999999 fresh
    = Returned (HTTPException 404 "Файл не найден", fresh).
Proof.
  apply (unknown_file_id_is_not_found 999999 fresh); [lia|].
  intros row Hrow. by apply not_elem_of_nil in Hrow.
Defined.

(** C5 as claimed fails for an id that does not fit an SQLite [INTEGER]:
    no [File] row has the id 2^63, and each of the three requests ends in
    [OverflowError] instead of the 404. *)
Lemma file_id_out_of_range_overflows :
  (∀ row, row ∈ files fresh → FileModel.id row ≠ 9223372036854775808)
  ∧ with_file_id analyze_file 9223372036854775808 fresh = OverflowError
  ∧ with_file_id get_analysis 9223372036854775808 fresh = OverflowError
  ∧ with_file_id get_file_info 9223372036854775808 fresh = OverflowError.
Proof.
  split; [|done]. intros row Hrow. by apply not_elem_of_nil in Hrow.
Qed.

(** C6. For a file that has a [File] row and no [Analysis] row, get analysis
    fails with a 404 whose message differs from the file-not-found message
    and tells the caller to run the analysis first; the store stays as it
    was. *)
Theorem analysis_not_run_yet (f : Z) (db : Store) :
  (∃ row, row ∈ files db ∧ FileModel.id row = f) →
  (∀ a, a ∈ analysis db → Analysis.file_id a ≠ f) →
  get_analysis f db = (HTTPException 404 analysis_not_found, db)
  ∧ analysis_not_found ≠ file_not_found
  ∧ contains "Сначала запустите POST /files/{file_id}/analyze" analysis_not_found.
Proof.
  intros Hfile Hnone.
  assert (is_Some (file_by_id f db)) as [row Hrow]
    by (by apply first_filter_is_Some).
  assert (analysis_of f db = None) as Hq by (by apply first_filter_None).
  split_and!.
  - unfold get_analysis. by rewrite Hrow, Hq.
  - done.
  - by exists "Анализ не найден. ", "".
Qed.

Lemma analysis_not_run_yet_witness :
  let db := (upload_file (Some "test.pdf") [x2a]%byte 7 Written fresh).2 in
  get_analysis 1 db = (HTTPException 404 analysis_not_found, db)
  ∧ analysis_not_found ≠ file_not_found
  ∧ contains "Сначала запустите POST /files/{file_id}/analyze" analysis_not_found.
Proof.
  intros db. apply (analysis_not_run_yet 1 db).
  - eexists. split; [apply list_elem_of_here | reflexivity].
  - intros a Ha. by apply not_elem_of_nil in Ha.
Defined.

(** C8. An upload whose file name is absent or empty fails with status 400
    before anything is written: the tables and the storage directory stay
    as they were. *)
Theorem upload_without_filename (filename : option string) (contents : list byte)
    (now : datetime) (io : disk) (db : Store) :
  filename = None ∨ filename = Some "" →
  upload_file filename contents now io db
  = (HTTPException 400 "Файл не выбран", db).
Proof. by intros [-> | ->]. Qed.

Lemma upload_without_filename_witness :
  upload_file None [x00; x01]%byte 5 Written fresh
  = (HTTPException 400 "Файл не выбран", fresh).
Proof. apply upload_without_filename. by left. Defined.

(** ** Ordered queries *)

Section order_by.
Context {A : Type} (key : A → Z).

#[local] Instance desc_trans : Transitive (desc key).
Proof. unfold desc. intros x y z ??. lia. Qed.

#[local] Instance desc_total : Total (desc key).
Proof. unfold desc. intros x y. lia. Qed.

Lemma order_by_desc_perm (rows : list A) : order_by_desc key rows ≡ₚ rows.
Proof. apply merge_sort_Permutation. Qed.

Lemma order_by_desc_sorted (rows : list A) :
  StronglySorted (desc key) (order_by_desc key rows).
Proof. apply StronglySorted_merge_sort; apply _. Qed.

Lemma first_order_by_desc_None (rows : list A) :
  first (order_by_desc key rows) = None ↔ rows = [].
Proof.
  unfold first. rewrite head_None. split.
  - intros Hnil. apply Permutation_nil_r. rewrite <-Hnil.
    symmetry. apply order_by_desc_perm.
  - by intros ->.
Qed.

(** The first row of a descending order has the largest key. *)
Lemma first_order_by_desc_Some (rows : list A) (top : A) :
  first (order_by_desc key rows) = Some top →
  top ∈ rows ∧ ∀ x, x ∈ rows → key x ≤ key top.
Proof.
  unfold first. intros Hhead.
  pose proof (order_by_desc_sorted rows) as Hsorted.
  pose proof (order_by_desc_perm rows) as Hperm.
  destruct (order_by_desc key rows) as [|y sorted]; simplify_eq/=.
  split.
  - rewrite <-Hperm. left.
  - intros x Hx. rewrite <-Hperm in Hx.
    apply StronglySorted_inv in Hsorted as [_ Hall].
    apply elem_of_cons in Hx as [->|Hx]; [lia|].
    rewrite Forall_forall in Hall. by apply Hall.
Qed.

(** In a descending order a row does not come before a row of a larger
    key. *)
Lemma sorted_lookup_desc (rows : list A) (i j : nat) (x y : A) :
  StronglySorted (desc key) rows →
  rows !! i = Some x → rows !! j = Some y → (i < j)%nat → key y ≤ key x.
Proof.
  intros Hsorted. revert i j.
  induction Hsorted as [|z rows Hsorted IH Hall]; intros i j Hi Hj Hlt.
  - by rewrite lookup_nil in Hi.
  - destruct j as [|j]; [lia|]. destruct i as [|i]; simplify_eq/=.
    + rewrite Forall_forall in Hall. apply Hall.
      by eapply list_elem_of_lookup_2.
    + apply (IH i j); [done | done | lia].
Qed.
End order_by.

(** ** Versions *)

Lemma next_version_first (n : string) (db : Store) :
  (∀ row, row ∈ files db → FileModel.original_name row ≠ n) →
  next_version n db = 1.
Proof.
  intros Hnone. unfold next_version, latest_version.
  replace (filter _ (files db)) with (@nil FileModel.t); [done|].
  symmetry. apply head_None.
  by apply (first_filter_None (λ f, FileModel.original_name f = n)).
Qed.

Lemma next_version_above_top (n : string) (db : Store) (row0 : FileModel.t) :
  row0 ∈ files db → FileModel.original_name row0 = n →
  ∃ top, top ∈ files db ∧ FileModel.original_name top = n
    ∧ (∀ row, row ∈ files db → FileModel.original_name row = n →
         FileModel.version row ≤ FileModel.version top)
    ∧ next_version n db = FileModel.version top + 1.
Proof.
  intros Hrow0 Hname0. unfold next_version, latest_version.
  destruct (first _) as [top|] eqn:Htop.
  - apply first_order_by_desc_Some in Htop as [Hin Hmax].
    apply list_elem_of_filter in Hin as [Hname Hin].
    exists top. split_and!; [done | done | | done].
    intros row Hrow Hname'. apply Hmax. by apply list_elem_of_filter.
  - apply first_order_by_desc_None in Htop.
    assert (row0 ∈ filter (λ f, FileModel.original_name f = n) (files db))
      as Hin by (by apply list_elem_of_filter).
    rewrite Htop in Hin. by apply not_elem_of_nil in Hin.
Qed.

Lemma upload_file_written (n : string) (contents : list byte) (now : datetime)
    (db : Store) :
  n ≠ "" →
  upload_file (Some n) contents now Written db
  = (Ok {| FileUploadResponse.id := next_id FileModel.id (files db);
           FileUploadResponse.file_name := n;
           FileUploadResponse.version := next_version n db;
           FileUploadResponse.size := Z.of_nat (length contents);
           FileUploadResponse.uploaded_at := now |},
     {| files := files db ++
          [{| FileModel.id := next_id FileModel.id (files db);
              FileModel.original_name := n;
              FileModel.version := next_version n db;
              FileModel.path :=
                path_join STORAGE_DIR (n +:+ "_v" +:+ str (next_version n db));
              FileModel.size := Z.of_nat (length contents);
              FileModel.uploaded_by := 1;
              FileModel.uploaded_at := now |}];
        analysis := analysis db;
        storage :=
          <[path_join STORAGE_DIR (n +:+ "_v" +:+ str (next_version n db))
            := contents]> (storage db) |}).
Proof. by destruct n. Qed.

(** C1. An upload of a file named [n] gets version 1 when no [File] row has
    that name; otherwise it gets the largest version among the rows of that
    name plus one, which is above the version of each of them. *)
Theorem upload_assigns_next_version (n : string) (contents : list byte)
    (now : datetime) (db : Store) :
  n ≠ "" →
  ∃ body db',
    upload_file (Some n) contents now Written db = (Ok body, db')
    ∧ (∃ row, files db' = files db ++ [row]
         ∧ FileModel.original_name row = n
         ∧ FileModel.version row = FileUploadResponse.version body)
    ∧ ((∀ row, row ∈ files db → FileModel.original_name row ≠ n) →
       FileUploadResponse.version body = 1)
    ∧ (∀ row0, row0 ∈ files db → FileModel.original_name row0 = n →
       (∃ top, top ∈ files db ∧ FileModel.original_name top = n
          ∧ (∀ row, row ∈ files db → FileModel.original_name row = n →
               FileModel.version row ≤ FileModel.version top)
          ∧ FileUploadResponse.version body = FileModel.version top + 1)
       ∧ FileModel.version row0 < FileUploadResponse.version body).
Proof.
  intros Hn. eexists _, _. split; [by apply upload_file_written|]. simpl.
  split_and!.
  - by eexists.
  - apply next_version_first.
  - intros row0 Hrow0 Hname0.
    destruct (next_version_above_top n db row0 Hrow0 Hname0)
      as (top & Hin & Hname & Hmax & Hnext).
    split; [by exists top|].
    specialize (Hmax row0 Hrow0 Hname0). lia.
Qed.

Lemma upload_assigns_next_version_witness :
  let db := (upload_file (Some "test.pdf") [x2a]%byte 10 Written fresh).2 in
  "test.pdf" ≠ ""
  ∧ ∃ body db',
      upload_file (Some "test.pdf") [x2b]%byte 20 Written db = (Ok body, db')
      ∧ FileUploadResponse.version body = 2.
Proof.
  intros db. split; [done|].
  destruct (upload_assigns_next_version "test.pdf" [x2b]%byte 20 db)
    as (body & db' & Hup & _ & _ & Hnext); [done|].
  exists body, db'. split; [exact Hup|].
  destruct (Hnext (FileModel.mk 1 "test.pdf" 1 "./storage/test.pdf_v1" 1 1 10))
    as [(top & Hin & _ & _ & ->) _]; [apply list_elem_of_here | done |].
  apply list_elem_of_singleton in Hin as ->. reflexivity.
Defined.

(** ** Requests in a row *)

Lemma serve_cons (r : request) (rest : list request) (db : Store) :
  serve (r :: rest) db
  = ((handle r db).1 :: (serve rest (handle r db).2).1,
     (serve rest (handle r db).2).2).
Proof.
  cbn [serve]. destruct (handle r db) as [o db1]. cbn [fst snd].
  by destruct (serve rest db1).
Qed.

Lemma serve_app (rs1 rs2 : list request) (db : Store) :
  serve (rs1 ++ rs2) db
  = ((serve rs1 db).1 ++ (serve rs2 (serve rs1 db).2).1,
     (serve rs2 (serve rs1 db).2).2).
Proof.
  revert db. induction rs1 as [|r rs1 IH]; intros db.
  - simpl. by destruct (serve rs2 db).
  - rewrite <-app_comm_cons, !serve_cons, IH. done.
Qed.

Lemma reachable_serve (rs : list request) (db : Store) :
  reachable db → reachable (serve rs db).2.
Proof. intros [rs0 <-]. exists (rs0 ++ rs). by rewrite serve_app. Qed.

Lemma handle_eq (r : request) (db : Store) :
  handle r db
  = match r with
    | Upload filename contents now io =>
      (Uploaded (upload_file filename contents now io db).1,
       (upload_file filename contents now io db).2)
    | GetFiles => (Listed (get_files db).1, (get_files db).2)
    | Analyze f => (Analyzed (analyze_file f db).1, (analyze_file f db).2)
    | GetAnalysis f =>
      (AnalysisFetched (get_analysis f db).1, (get_analysis f db).2)
    | GetFileInfo f => (InfoFetched (get_file_info f db).1, (get_file_info f db).2)
    end.
Proof.
  destruct r; simpl.
  - by destruct (upload_file _ _ _ _ _).
  - done.
  - by destruct (analyze_file _ _).
  - by destruct (get_analysis _ _).
  - by destruct (get_file_info _ _).
Qed.

(** The requests that only read. *)
Lemma get_files_store (db : Store) : (get_files db).2 = db.
Proof. done. Qed.

Lemma get_analysis_store (f : Z) (db : Store) : (get_analysis f db).2 = db.
Proof.
  unfold get_analysis. destruct (file_by_id f db); [|done].
  by destruct (analysis_of f db).
Qed.

Lemma get_file_info_store (f : Z) (db : Store) : (get_file_info f db).2 = db.
Proof. unfold get_file_info. by destruct (file_by_id f db). Qed.

Lemma analyze_file_files (f : Z) (db : Store) :
  files (analyze_file f db).2 = files db.
Proof.
  unfold analyze_file. destruct (file_by_id f db); [|done].
  by destruct (analysis_of f db).
Qed.

Lemma upload_file_analysis (filename : option string) (contents : list byte)
    (now : datetime) (io : disk) (db : Store) :
  analysis (upload_file filename contents now io db).2 = analysis db.
Proof. destruct filename as [[|c n]|]; [done| |done]. by destruct io. Qed.

(** ** Versions count up *)

Lemma next_version_files (n : string) (db1 db2 : Store) :
  files db1 = files db2 → next_version n db1 = next_version n db2.
Proof. unfold next_version, latest_version. by intros ->. Qed.

Lemma next_version_below (n : string) (db : Store) (row : FileModel.t) :
  row ∈ files db → FileModel.original_name row = n →
  FileModel.version row < next_version n db.
Proof.
  intros Hrow Hname.
  destruct (next_version_above_top n db row Hrow Hname)
    as (top & _ & _ & Hmax & ->).
  specialize (Hmax row Hrow Hname). lia.
Qed.

Lemma next_version_of_top (n : string) (db : Store) (top : FileModel.t) :
  top ∈ files db → FileModel.original_name top = n →
  (∀ row, row ∈ files db → FileModel.original_name row = n →
     FileModel.version row ≤ FileModel.version top) →
  next_version n db = FileModel.version top + 1.
Proof.
  intros Htop Hname Hmax.
  destruct (next_version_above_top n db top Htop Hname)
    as (top' & Hin' & Hname' & Hmax' & ->).
  specialize (Hmax top' Hin' Hname'). specialize (Hmax' top Htop Hname). lia.
Qed.

Lemma next_version_after_upload (n m : string) (contents : list byte)
    (now : datetime) (db : Store) :
  m ≠ "" →
  next_version n (upload_file (Some m) contents now Written db).2
  = if bool_decide (m = n) then next_version n db + 1 else next_version n db.
Proof.
  intros Hm. rewrite upload_file_written by done. simpl.
  case_bool_decide as Hmn.
  - subst m.
    rewrite (next_version_of_top n _
      (FileModel.mk (next_id FileModel.id (files db)) n (next_version n db)
         (path_join STORAGE_DIR (n +:+ "_v" +:+ str (next_version n db)))
         (Z.of_nat (length contents)) 1 now)); [done | | done |].
    + simpl. apply elem_of_app. right. apply list_elem_of_here.
    + simpl. intros row Hrow Hname.
      apply elem_of_app in Hrow as [Hrow|Hrow].
      * pose proof (next_version_below n db row Hrow Hname). lia.
      * by apply list_elem_of_singleton in Hrow as ->.
  - unfold next_version, latest_version. simpl.
    rewrite filter_app, filter_cons_False by done.
    by rewrite filter_nil, app_nil_r.
Qed.

(** What one request adds to the versions handed out for [n]. *)
Lemma handle_version (n : string) (r : request) (db : Store) :
  n ≠ "" →
  if is_upload_of n r
  then uploaded_version n (handle r db).1 = Some (next_version n db)
       ∧ next_version n (handle r db).2 = next_version n db + 1
  else uploaded_version n (handle r db).1 = None
       ∧ next_version n (handle r db).2 = next_version n db.
Proof.
  intros Hn. rewrite handle_eq.
  destruct r as [[m|] contents now io | | f | f | f];
    cbn [is_upload_of fst snd].
  - destruct (decide (m = "")) as [->|Hm].
    { destruct io; simpl; by rewrite ?bool_decide_eq_false_2. }
    destruct io.
    + rewrite next_version_after_upload by done.
      rewrite upload_file_written by done. simpl.
      case_bool_decide as Hmn; [by subst m|done].
    + by destruct m.
    + destruct m; [done|]. split; [done|]. by apply next_version_files.
  - done.
  - done.
  - split; [|apply next_version_files, analyze_file_files].
    unfold analyze_file. destruct (file_by_id f db); [|done].
    by destruct (analysis_of f db).
  - by rewrite get_analysis_store.
  - by rewrite get_file_info_store.
Qed.

Lemma versions_from (n : string) (rs : list request) (db : Store) :
  n ≠ "" →
  omap (uploaded_version n) (serve rs db).1
  = (λ k, next_version n db + Z.of_nat k)
      <$> seq 0 (length (filter (λ r, is_upload_of n r = true) rs)).
Proof.
  intros Hn. revert db. induction rs as [|r rs IH]; intros db; [done|].
  rewrite serve_cons. simpl. rewrite IH.
  pose proof (handle_version n r db Hn) as Hstep.
  rewrite filter_cons. destruct (is_upload_of n r).
  - destruct Hstep as [-> ->]. rewrite decide_True by done. simpl.
    f_equal; [f_equal; lia|].
    rewrite <-fmap_S_seq, <-list_fmap_compose. apply list_fmap_ext.
    intros _ k _. simpl. lia.
  - destruct Hstep as [-> ->]. by rewrite decide_False by done.
Qed.

(** C4. When no row of a name is stored yet, the uploads of that name that
    follow get the versions 1, 2, ..., N in upload order, whatever requests
    come in between. *)
Theorem versions_count_up (n : string) (rs : list request) (db : Store) :
  n ≠ "" →
  (∀ row, row ∈ files db → FileModel.original_name row ≠ n) →
  omap (uploaded_version n) (serve rs db).1
  = Z.of_nat <$> seq 1 (length (filter (λ r, is_upload_of n r = true) rs)).
Proof.
  intros Hn Hnone. rewrite versions_from by done.
  rewrite next_version_first by done.
  rewrite <-fmap_S_seq, <-list_fmap_compose. apply list_fmap_ext.
  intros _ k _. simpl. lia.
Qed.

Lemma versions_count_up_witness :
  omap (uploaded_version "test.pdf")
    (serve [Upload (Some "test.pdf") [x2a]%byte 10 Written;
            Upload (Some "other.pdf") [x2a]%byte 20 Written;
            Upload (Some "test.pdf") [x2b]%byte 30 Written;
            Analyze 1;
            Upload (Some "test.pdf") [] 40 Written] fresh).1
  = [1; 2; 3].
Proof.
  rewrite (versions_count_up "test.pdf" _ fresh); [reflexivity | done |].
  intros row Hrow. by apply not_elem_of_nil in Hrow.
Defined.

(** ** The listing *)

Lemma get_files_sorted (db : Store) :
  ∃ rows, get_files db = (Ok (file_list_item <$> rows), db)
    ∧ rows ≡ₚ files db
    ∧ StronglySorted (desc FileModel.uploaded_at) rows.
Proof.
  exists (files_newest_first db). split_and!; [done|..].
  - apply order_by_desc_perm.
  - apply order_by_desc_sorted.
Qed.

(** Of two stored rows the one uploaded later is listed first. *)
Lemma later_row_listed_first (db : Store) (old new : FileModel.t) :
  old ∈ files db → new ∈ files db →
  FileModel.uploaded_at old < FileModel.uploaded_at new →
  ∃ i j : nat, (i < j)%nat
    ∧ files_newest_first db !! i = Some new
    ∧ files_newest_first db !! j = Some old.
Proof.
  intros Hold Hnew Hlt.
  pose proof (order_by_desc_sorted FileModel.uploaded_at (files db)) as Hsorted.
  pose proof (order_by_desc_perm FileModel.uploaded_at (files db)) as Hperm.
  fold (files_newest_first db) in Hsorted, Hperm.
  rewrite <-Hperm in Hold, Hnew.
  apply list_elem_of_lookup_1 in Hold as [j Hj].
  apply list_elem_of_lookup_1 in Hnew as [i Hi].
  exists i, j. split_and!; [|done..].
  destruct (decide (i < j)%nat) as [|Hge]; [done|]. exfalso.
  destruct (decide (i = j)) as [->|Hne].
  - rewrite Hi in Hj. simplify_eq. lia.
  - pose proof (sorted_lookup_desc FileModel.uploaded_at _ j i old new
      Hsorted Hj Hi) as Hle.
    unfold desc in Hle. lia.
Qed.

(** C7, amended. Listing returns every [File] row, ordered by [uploaded_at]
    descending.  After two uploads of a name that was not stored before,
    the entry of version 2 comes before the entry of version 1 when the
    clock reading of the second upload is later than that of the first. *)
Theorem listing_newest_first (n : string) (c1 c2 : list byte) (t1 t2 : datetime)
    (db : Store) :
  n ≠ "" →
  (∀ row, row ∈ files db → FileModel.original_name row ≠ n) →
  t1 < t2 →
  (∀ db0, ∃ rows, get_files db0 = (Ok (file_list_item <$> rows), db0)
     ∧ rows ≡ₚ files db0
     ∧ StronglySorted (desc FileModel.uploaded_at) rows)
  ∧ (let db1 := (upload_file (Some n) c1 t1 Written db).2 in
     let db2 := (upload_file (Some n) c2 t2 Written db1).2 in
     ∃ listing, get_files db2 = (Ok listing, db2)
       ∧ version_precedes n 2 1 listing).
Proof.
  intros Hn Hnone Hlt. split; [apply get_files_sorted|].
  intros db1 db2. exists (file_list_item <$> files_newest_first db2).
  split; [done|].
  assert (next_version n db1 = 2) as Hv2.
  { unfold db1. rewrite next_version_after_upload by done.
    rewrite bool_decide_eq_true_2 by done. by rewrite next_version_first. }
  pose proof (next_version_first n db Hnone) as Hv1.
  unfold db2, db1 in *. clear db1 db2.
  rewrite (upload_file_written n c2) by done.
  rewrite (upload_file_written n c1) in Hv2 |- * by done. simpl in Hv2 |- *.
  rewrite Hv1 in Hv2 |- *. rewrite Hv2.
  match goal with |- context [files_newest_first ?d] => set (db2 := d) end.
  destruct (later_row_listed_first db2
    (FileModel.mk (next_id FileModel.id (files db)) n 1
       (path_join STORAGE_DIR (n +:+ "_v" +:+ str 1))
       (Z.of_nat (length c1)) 1 t1)
    (FileModel.mk
       (next_id FileModel.id (files db ++
          [FileModel.mk (next_id FileModel.id (files db)) n 1
             (path_join STORAGE_DIR (n +:+ "_v" +:+ str 1))
             (Z.of_nat (length c1)) 1 t1]))
       n 2 (path_join STORAGE_DIR (n +:+ "_v" +:+ str 2))
       (Z.of_nat (length c2)) 1 t2))
    as (i & j & Hij & Hi & Hj).
  - unfold db2. simpl. rewrite !elem_of_app, !list_elem_of_singleton. auto.
  - unfold db2. simpl. rewrite !elem_of_app, !list_elem_of_singleton. auto.
  - done.
  - exists i, j. eexists _, _. rewrite !list_lookup_fmap, Hi, Hj.
    split_and!; done.
Qed.

Lemma listing_newest_first_witness :
  let db1 := (upload_file (Some "report.pdf") [x2a]%byte 10 Written fresh).2 in
  let db2 := (upload_file (Some "report.pdf") [x2a]%byte 20 Written db1).2 in
  ∃ listing, get_files db2 = (Ok listing, db2)
    ∧ version_precedes "report.pdf" 2 1 listing.
Proof.
  apply (listing_newest_first "report.pdf" [x2a]%byte [x2a]%byte 10 20 fresh);
    [done | | lia].
  intros row Hrow. by apply not_elem_of_nil in Hrow.
Defined.

(** C7 as claimed fails when the clock is set back between the two uploads:
    the second upload reads 10 after the first read 20, and the listing
    puts version 1 before version 2. *)
Lemma listing_older_version_first :
  let db1 := (upload_file (Some "report.pdf") [x2a]%byte 20 Written fresh).2 in
  let db2 := (upload_file (Some "report.pdf") [x2a]%byte 10 Written db1).2 in
  ∃ listing, get_files db2 = (Ok listing, db2)
    ∧ FileListItem.version <$> listing = [1; 2]
    ∧ ¬ version_precedes "report.pdf" 2 1 listing.
Proof.
  intros db1 db2. eexists. split; [reflexivity|]. split; [by vm_compute|].
  intros (i & j & x & y & Hij & Hi & Hj & _ & Hx & _ & Hy).
  rewrite list_lookup_fmap in Hi, Hj.
  destruct i as [|[|i]]; destruct j as [|[|j]]; try lia;
    vm_compute in Hi, Hj; simplify_eq.
Qed.

(** ** Analysis rows *)

Lemma next_id_above {A} (key : A → Z) (rows : list A) (x : A) :
  x ∈ rows → key x < next_id key rows.
Proof.
  unfold next_id. induction rows as [|y rows IH]; intros Hx.
  - by apply not_elem_of_nil in Hx.
  - rewrite fmap_cons. cbn [foldr].
    apply elem_of_cons in Hx as [->|Hx]; [lia|].
    specialize (IH Hx). lia.
Qed.

Lemma update_result_ids (i : Z) (r : string) (rows : list Analysis.t) :
  Analysis.id <$> update_result i r rows = Analysis.id <$> rows.
Proof.
  unfold update_result. rewrite <-list_fmap_compose. apply list_fmap_ext.
  intros _ a _. simpl. by case_bool_decide.
Qed.

Lemma update_result_filter (f i : Z) (r : string) (rows : list Analysis.t) :
  filter (λ a, Analysis.file_id a = f) (update_result i r rows)
  = update_result i r (filter (λ a, Analysis.file_id a = f) rows).
Proof.
  unfold update_result.
  set (g := λ a, if bool_decide (Analysis.id a = i)
                 then Analysis.set_result r a else a).
  assert (∀ a, Analysis.file_id (g a) = Analysis.file_id a) as Hg.
  { intros a. unfold g. by case_bool_decide. }
  induction rows as [|a rows IH]; [done|].
  rewrite fmap_cons. destruct (decide (Analysis.file_id a = f)) as [Hf|Hf].
  - rewrite !filter_cons_True by (by rewrite ?Hg). by rewrite fmap_cons, IH.
  - by rewrite !filter_cons_False by (by rewrite ?Hg).
Qed.

(** With distinct primary keys the [UPDATE] rewrites one row, where it
    stands. *)
Lemma update_result_in_place (pos : nat) (a : Analysis.t) (r : string)
    (rows : list Analysis.t) :
  NoDup (Analysis.id <$> rows) → rows !! pos = Some a →
  update_result (Analysis.id a) r rows = <[pos := Analysis.set_result r a]> rows.
Proof.
  intros Hnodup Hpos. apply list_eq. intros k.
  unfold update_result. rewrite list_lookup_fmap.
  destruct (decide (k = pos)) as [->|Hne].
  - rewrite list_lookup_insert_eq by (by eapply lookup_lt_Some).
    rewrite Hpos. simpl. by rewrite bool_decide_eq_true_2.
  - rewrite list_lookup_insert_ne by done.
    destruct (rows !! k) as [b|] eqn:Hk; [|done]. simpl.
    rewrite bool_decide_eq_false_2; [done|]. intros Hid.
    apply Hne. eapply NoDup_lookup; [exact Hnodup | |].
    + by rewrite list_lookup_fmap, Hk.
    + rewrite list_lookup_fmap, Hpos. simpl. by rewrite Hid.
Qed.

(** What [analyze_file] does to the [analysis] table. *)
Lemma analyze_file_analysis (g : Z) (db : Store) :
  analysis (analyze_file g db).2
  = match file_by_id g db, analysis_of g db with
    | None, _ => analysis db
    | Some row, Some existing =>
      update_result (Analysis.id existing)
        (mock_ai_analysis (FileModel.original_name row) (FileModel.size row)
           (FileModel.version row))
        (analysis db)
    | Some row, None =>
      analysis db ++
        [{| Analysis.id := next_id Analysis.id (analysis db);
            Analysis.file_id := g;
            Analysis.result :=
              mock_ai_analysis (FileModel.original_name row) (FileModel.size row)
                (FileModel.version row) |}]
    end.
Proof.
  unfold analyze_file. destruct (file_by_id g db); [|done].
  by destruct (analysis_of g db).
Qed.

Lemma handle_analysis (r : request) (db : Store) :
  analysis (handle r db).2
  = match r with
    | Analyze g => analysis (analyze_file g db).2
    | _ => analysis db
    end.
Proof.
  rewrite handle_eq. destruct r; cbn [snd].
  - apply upload_file_analysis.
  - done.
  - done.
  - by rewrite get_analysis_store.
  - by rewrite get_file_info_store.
Qed.

Lemma analysis_of_None (f : Z) (db : Store) :
  analysis_of f db = None → analyses_for f db = [].
Proof. unfold analysis_of, first. by rewrite head_None. Qed.

Lemma analyze_file_ok (g : Z) (db : Store) :
  analysis_table_ok db → analysis_table_ok (analyze_file g db).2.
Proof.
  intros [Hnodup Hone]. unfold analysis_table_ok, analyses_for in *.
  rewrite analyze_file_analysis.
  destruct (file_by_id g db) as [row|]; [|done].
  destruct (analysis_of g db) as [existing|] eqn:Hex.
  - rewrite update_result_ids. split; [done|]. intros f.
    rewrite update_result_filter. unfold update_result.
    rewrite length_fmap. apply Hone.
  - split.
    + rewrite fmap_app. apply NoDup_app. split_and!; [done | | apply NoDup_singleton].
      intros i Hi Hnew. simpl in Hnew. apply list_elem_of_singleton in Hnew.
      apply list_elem_of_fmap in Hi as (a & -> & Ha).
      pose proof (next_id_above Analysis.id _ a Ha). simpl in *. lia.
    + intros f. rewrite filter_app, length_app, filter_cons, filter_nil. simpl.
      destruct (decide (g = f)) as [->|Hne]; simpl.
      * apply analysis_of_None in Hex. unfold analyses_for in Hex.
        rewrite Hex. simpl. lia.
      * specialize (Hone f). lia.
Qed.

Lemma handle_ok (r : request) (db : Store) :
  analysis_table_ok db → analysis_table_ok (handle r db).2.
Proof.
  intros Hok. pose proof (handle_analysis r db) as Heq.
  destruct r; try (unfold analysis_table_ok, analyses_for in *; by rewrite Heq).
  rewrite handle_eq. cbn [snd]. by apply analyze_file_ok.
Qed.

Lemma serve_ok (rs : list request) (db : Store) :
  analysis_table_ok db → analysis_table_ok (serve rs db).2.
Proof.
  revert db. induction rs as [|r rs IH]; intros db Hok; [done|].
  rewrite serve_cons. cbn [snd]. by apply IH, handle_ok.
Qed.

Lemma reachable_ok (db : Store) : reachable db → analysis_table_ok db.
Proof.
  intros [rs <-]. apply serve_ok. split; [apply NoDup_nil_2|].
  intros f. unfold analyses_for. simpl. lia.
Qed.

(** ** The analysis id of a file *)

Lemma stored_id_analysis (f : Z) (db1 db2 : Store) :
  analysis db1 = analysis db2 → stored_id f db1 = stored_id f db2.
Proof. unfold stored_id, analysis_of. by intros ->. Qed.

Lemma stored_id_update (f i : Z) (r : string) (db : Store) :
  stored_id f
    {| files := files db; analysis := update_result i r (analysis db);
       storage := storage db |}
  = stored_id f db.
Proof.
  unfold stored_id, analysis_of, first. simpl. rewrite update_result_filter.
  destruct (filter _ (analysis db)) as [|a rows]; [done|]. simpl.
  by case_bool_decide.
Qed.

(** Once a file has an [Analysis] row, analysing any file keeps the key of
    that row. *)
Lemma analyze_file_stored_id (f g i : Z) (db : Store) :
  stored_id f db = Some i → stored_id f (analyze_file g db).2 = Some i.
Proof.
  intros Hi. unfold analyze_file.
  destruct (file_by_id g db) as [row|]; [|done].
  destruct (analysis_of g db) as [existing|] eqn:Hex; cbn [snd].
  - by rewrite stored_id_update.
  - unfold stored_id, analysis_of, first in *. simpl.
    rewrite filter_app, head_app.
    by destruct (head (filter _ (analysis db))).
Qed.

Lemma handle_stored_id (f i : Z) (r : request) (db : Store) :
  stored_id f db = Some i → stored_id f (handle r db).2 = Some i.
Proof.
  intros Hi. pose proof (handle_analysis r db) as Heq.
  destruct r; try (by rewrite (stored_id_analysis f _ db)).
  rewrite handle_eq. cbn [snd]. by apply analyze_file_stored_id.
Qed.

Lemma serve_stored_id (f i : Z) (rs : list request) (db : Store) :
  stored_id f db = Some i → stored_id f (serve rs db).2 = Some i.
Proof.
  revert db. induction rs as [|r rs IH]; intros db Hi; [done|].
  rewrite serve_cons. cbn [snd]. by apply IH, handle_stored_id.
Qed.

(** The id that an analyze response reports is the key of the stored row. *)
Lemma analyze_file_reports_stored_id (f i : Z) (db : Store) :
  analyzed_id f (Analyzed (analyze_file f db).1) = Some i →
  stored_id f (analyze_file f db).2 = Some i.
Proof.
  unfold analyze_file. destruct (file_by_id f db) as [row|]; [|done].
  destruct (analysis_of f db) as [existing|] eqn:Hex; cbn [fst snd];
    simpl; rewrite bool_decide_eq_true_2 by done; intros [= <-].
  - rewrite stored_id_update. unfold stored_id. by rewrite Hex.
  - unfold stored_id, analysis_of, first in *. simpl.
    rewrite filter_app, head_app. apply head_None in Hex. rewrite Hex. simpl.
    by rewrite filter_cons_True.
Qed.

Lemma analyze_file_file_id (g : Z) (db : Store) (body : AnalysisResponse.t) :
  (analyze_file g db).1 = Ok body → AnalysisResponse.file_id body = g.
Proof.
  unfold analyze_file. destruct (file_by_id g db); [|done].
  destruct (analysis_of g db); by intros [= <-].
Qed.

Lemma handle_reports_stored_id (f i : Z) (r : request) (db : Store) :
  analyzed_id f (handle r db).1 = Some i →
  stored_id f (handle r db).2 = Some i.
Proof.
  rewrite handle_eq. destruct r as [| |g| |]; cbn [fst snd]; try done.
  intros Hi. assert (g = f) as ->.
  { unfold analyzed_id in Hi.
    destruct (analyze_file g db).1 as [body| |] eqn:Hbody; [|done..].
    apply analyze_file_file_id in Hbody. by case_bool_decide; simplify_eq. }
  by apply analyze_file_reports_stored_id.
Qed.

Lemma omap_cons_case {A B} (f : A → option B) (x : A) (l : list A) :
  omap f (x :: l)
  = match f x with Some y => y :: omap f l | None => omap f l end.
Proof. done. Qed.

Lemma serve_reports_stored_id (f i : Z) (rs : list request) (db : Store) :
  i ∈ omap (analyzed_id f) (serve rs db).1 →
  stored_id f (serve rs db).2 = Some i.
Proof.
  revert db. induction rs as [|r rs IH]; intros db Hi.
  - by apply not_elem_of_nil in Hi.
  - rewrite serve_cons in Hi |- *. cbn [fst snd] in *.
    rewrite omap_cons_case in Hi.
    destruct (analyzed_id f (handle r db).1) as [k|] eqn:Hk; [|by apply IH].
    apply elem_of_cons in Hi as [->|Hi]; [|by apply IH].
    by apply serve_stored_id, handle_reports_stored_id.
Qed.

(** ** Analysing a file again and again *)

Lemma file_by_id_files (f : Z) (db1 db2 : Store) :
  files db1 = files db2 → file_by_id f db1 = file_by_id f db2.
Proof. unfold file_by_id. by intros ->. Qed.

(** One call: it answers with the stored id, or with the id of the row it
    creates, and that is the stored id from then on. *)
Lemma analyze_file_once (f : Z) (db : Store) (row : FileModel.t) :
  file_by_id f db = Some row →
  let i := default (next_id Analysis.id (analysis db)) (stored_id f db) in
  let r := mock_ai_analysis (FileModel.original_name row)
             (FileModel.size row) (FileModel.version row) in
  (analyze_file f db).1 = Ok (AnalysisResponse.mk f i r)
  ∧ stored_id f (analyze_file f db).2 = Some i
  ∧ file_by_id f (analyze_file f db).2 = Some row.
Proof.
  intros Hrow i r.
  assert ((analyze_file f db).1 = Ok (AnalysisResponse.mk f i r)) as Hres.
  { unfold analyze_file, i, stored_id. rewrite Hrow.
    by destruct (analysis_of f db). }
  split_and!; [done | |].
  - apply analyze_file_reports_stored_id. rewrite Hres. simpl.
    by rewrite bool_decide_eq_true_2.
  - rewrite <-Hrow. apply file_by_id_files, analyze_file_files.
Qed.

Lemma analyze_file_repeat (f i : Z) (n : nat) (db : Store) (row : FileModel.t) :
  file_by_id f db = Some row → stored_id f db = Some i →
  (serve (replicate n (Analyze f)) db).1
  = replicate n
      (Analyzed (Ok (AnalysisResponse.mk f i
         (mock_ai_analysis (FileModel.original_name row) (FileModel.size row)
            (FileModel.version row))))).
Proof.
  revert db. induction n as [|n IH]; intros db Hrow Hi; [done|].
  destruct (analyze_file_once f db row Hrow) as (Hres & Hid & Hrow').
  rewrite Hi in Hres, Hid. simpl in Hres, Hid.
  cbn [replicate]. rewrite serve_cons, handle_eq. cbn [fst snd].
  rewrite Hres. f_equal. by apply IH.
Qed.

(** C3. Whatever requests the service has handled, a file has at most one
    [Analysis] row and every analyze response for it reports the same
    analysis id.  In any store whose [Analysis] ids are distinct, analysing
    a file that has a [File] row and no [Analysis] row appends the row;
    analysing it when the row exists puts the new text in the [result] of
    that row, where it stands, keeps its id and file id, leaves every other
    row alone and reports the id of that row.  Any number of calls in a row
    succeed with one and the same analysis id. *)
Theorem analyze_upserts (rs : list request) (f : Z) :
  let os := (serve rs fresh).1 in
  let db := (serve rs fresh).2 in
  (length (analyses_for f db) ≤ 1)%nat
  ∧ (∀ i j, i ∈ omap (analyzed_id f) os → j ∈ omap (analyzed_id f) os → i = j)
  ∧ (∀ db0 row,
     NoDup (Analysis.id <$> analysis db0) → file_by_id f db0 = Some row →
     let r := mock_ai_analysis (FileModel.original_name row)
                (FileModel.size row) (FileModel.version row) in
     match analysis_of f db0 with
     | None =>
       analyze_file f db0
       = (Ok (AnalysisResponse.mk f (next_id Analysis.id (analysis db0)) r),
          mkStore (files db0)
            (analysis db0 ++ [Analysis.mk (next_id Analysis.id (analysis db0)) f r])
            (storage db0))
     | Some existing =>
       ∃ pos : nat, analysis db0 !! pos = Some existing
         ∧ analyze_file f db0
           = (Ok (AnalysisResponse.mk f (Analysis.id existing) r),
              mkStore (files db0)
                (<[pos := Analysis.mk (Analysis.id existing)
                            (Analysis.file_id existing) r]> (analysis db0))
                (storage db0))
     end)
  ∧ (∀ row, file_by_id f db = Some row →
     ∃ i, ∀ n : nat,
       let run := serve (replicate n (Analyze f)) db in
       run.1 = replicate n
                 (Analyzed (Ok (AnalysisResponse.mk f i
                    (mock_ai_analysis (FileModel.original_name row)
                       (FileModel.size row) (FileModel.version row)))))
       ∧ (length (analyses_for f run.2) ≤ 1)%nat
       ∧ ((0 < n)%nat → length (analyses_for f run.2) = 1%nat)).
Proof.
  intros os db.
  assert (analysis_table_ok db) as [Hnodup Hone].
  { apply reachable_ok. by exists rs. }
  split_and!.
  - apply Hone.
  - intros i j Hi Hj.
    apply serve_reports_stored_id in Hi, Hj. fold db in Hi, Hj. congruence.
  - intros db0 row Hnodup0 Hrow r. unfold analyze_file. rewrite Hrow.
    destruct (analysis_of f db0) as [existing|] eqn:Hex; [|done].
    apply first_filter_Some in Hex as [Hin _].
    apply list_elem_of_lookup_1 in Hin as [pos Hpos].
    exists pos. split; [done|].
    by rewrite (update_result_in_place pos).
  - intros row Hrow.
    exists (default (next_id Analysis.id (analysis db)) (stored_id f db)).
    intros n run.
    assert (analysis_table_ok run.2) as [_ Hone'].
    { apply serve_ok. by split. }
    destruct (analyze_file_once f db row Hrow) as (Hres & Hid & Hrow').
    split_and!; [|apply Hone'|].
    + destruct n as [|n]; [done|]. unfold run. cbn [replicate].
      rewrite serve_cons, handle_eq. cbn [fst snd]. rewrite Hres. f_equal.
      by apply analyze_file_repeat.
    + intros Hn. specialize (Hone' f).
      destruct n as [|n]; [lia|]. unfold run in *. cbn [replicate] in *.
      rewrite serve_cons, handle_eq in Hone' |- *. cbn [fst snd] in *.
      pose proof (serve_stored_id f _ (replicate n (Analyze f)) _ Hid) as Hst.
      unfold stored_id, analysis_of, first in Hst. unfold analyses_for in *.
      destruct (filter _ _) as [|a [|b rest]]; simpl in *; [done | done | lia].
Qed.

(** A stored result that differs from the analysis text is overwritten:
    the row of file 1 keeps its place between two rows of other files, and
    its id 7. *)
Lemma analyze_upserts_witness :
  let file := FileModel.mk 1 "a.txt" 1 "./storage/a.txt_v1" 5 1 10 in
  let db0 :=
    mkStore [file]
      [Analysis.mk 3 4 "other"; Analysis.mk 7 1 "stale"; Analysis.mk 9 5 "more"]
      ∅ in
  let text := "Файл 'a.txt' очень маленький (5 байт), версия 1. Изменения минимальны." in
  analyze_file 1 db0
  = (Ok (AnalysisResponse.mk 1 7 text),
     mkStore [file]
       [Analysis.mk 3 4 "other"; Analysis.mk 7 1 text; Analysis.mk 9 5 "more"]
       ∅).
Proof.
  intros file db0 text.
  destruct (analyze_upserts [] 1) as (_ & _ & Hupsert & _).
  assert (NoDup (Analysis.id <$> analysis db0)) as Hnodup.
  { apply (bool_decide_unpack (NoDup (Analysis.id <$> analysis db0))).
    by vm_compute. }
  specialize (Hupsert db0 file Hnodup eq_refl).
  change (analysis_of 1 db0) with (Some (Analysis.mk 7 1 "stale")) in Hupsert.
  destruct Hupsert as (pos & Hpos & ->).
  destruct pos as [|[|[|pos]]]; simplify_eq/=. reflexivity.
Defined.

(** Three analyses of one file, with another upload in between: one row,
    one id. *)
Example analyze_three_times :
  let run := serve [Upload (Some "test.pdf") [x2a]%byte 10 Written;
                    Analyze 1; Analyze 1;
                    Upload (Some "test.pdf") [x2b]%byte 20 Written;
                    Analyze 1] fresh in
  omap (analyzed_id 1) run.1 = [1; 1; 1]
  ∧ length (analysis run.2) = 1%nat.
Proof. by vm_compute. Qed.


(** * Further properties of the handlers *)

(** ** What a request does to the store *)

Lemma serve_invariant (P : Store → Prop) :
  (∀ r db, P db → P (handle r db).2) →
  ∀ rs db, P db → P (serve rs db).2.
Proof.
  intros Hstep rs. induction rs as [|r rs IH]; intros db HP; [done|].
  rewrite serve_cons. cbn [snd]. by apply IH, Hstep.
Qed.

Lemma handle_read (r : request) (db : Store) :
  is_read r = true → (handle r db).2 = db.
Proof.
  rewrite handle_eq. destruct r; try done; intros _; cbn [snd].
  - apply get_analysis_store.
  - apply get_file_info_store.
Qed.

(** X1. Listing, fetching the analysis and fetching the file info never
    change the store, whether they succeed or fail: after any sequence of
    such requests the tables and the storage directory are as before. *)
Theorem reads_leave_store (rs : list request) (db : Store) :
  Forall (λ r, is_read r = true) rs → (serve rs db).2 = db.
Proof.
  intros Hreads. revert db. induction Hreads as [|r rs Hr _ IH]; intros db; [done|].
  rewrite serve_cons. cbn [snd]. by rewrite handle_read, IH.
Qed.

Lemma reads_leave_store_witness :
  let db := (upload_file (Some "test.pdf") [x2a]%byte 10 Written fresh).2 in
  (serve [GetFiles; GetAnalysis 1; GetFileInfo 1; GetFileInfo 999] db).2 = db.
Proof.
  intros db. apply reads_leave_store. by repeat constructor.
Defined.

(** The row that a completed upload inserts. *)
Lemma upload_file_files (n : string) (contents : list byte) (now : datetime)
    (db : Store) :
  n ≠ "" →
  files (upload_file (Some n) contents now Written db).2
  = files db ++
      [FileModel.mk (next_id FileModel.id (files db)) n (next_version n db)
         (path_join STORAGE_DIR (filename_on_disk n (next_version n db)))
         (Z.of_nat (length contents)) 1 now].
Proof. intros Hn. by rewrite upload_file_written. Qed.

(** A request either leaves the [files] table alone or is a completed upload. *)
Lemma handle_files_cases (r : request) (db : Store) :
  files (handle r db).2 = files db
  ∨ ∃ n contents now,
      n ≠ "" ∧ r = Upload (Some n) contents now Written
      ∧ files (handle r db).2
        = files (upload_file (Some n) contents now Written db).2.
Proof.
  rewrite handle_eq. destruct r as [[n|] contents now io | | f | f | f]; cbn [snd].
  - destruct (decide (n = "")) as [->|Hn]; [by left; destruct io|].
    destruct io.
    + right. by exists n, contents, now.
    + left. by destruct n.
    + left. by destruct n.
  - by left.
  - by left.
  - left. apply analyze_file_files.
  - left. by rewrite get_analysis_store.
  - left. by rewrite get_file_info_store.
Qed.

Lemma handle_files_prefix (r : request) (db : Store) :
  files db `prefix_of` files (handle r db).2.
Proof.
  destruct (handle_files_cases r db) as [->|(n & c & now & Hn & _ & ->)]; [done|].
  rewrite upload_file_files by done. by apply prefix_app_r.
Qed.

Lemma update_result_file_ids (i : Z) (r : string) (rows : list Analysis.t) :
  Analysis.file_id <$> update_result i r rows = Analysis.file_id <$> rows.
Proof.
  unfold update_result. rewrite <-list_fmap_compose. apply list_fmap_ext.
  intros _ a _. simpl. by case_bool_decide.
Qed.

Lemma handle_analysis_keys_prefix (r : request) (db : Store) :
  (λ a, (Analysis.id a, Analysis.file_id a)) <$> analysis db
  `prefix_of` (λ a, (Analysis.id a, Analysis.file_id a)) <$> analysis (handle r db).2.
Proof.
  rewrite handle_analysis. destruct r as [| |g| |]; try done.
  rewrite analyze_file_analysis.
  destruct (file_by_id g db) as [row|]; [|done].
  destruct (analysis_of g db) as [existing|].
  - unfold update_result. rewrite <-list_fmap_compose.
    erewrite list_fmap_ext; [done|]. intros _ a _. simpl. by case_bool_decide.
  - rewrite fmap_app. by apply prefix_app_r.
Qed.

(** X2. Rows are only ever added at the end of the tables.  Whatever
    requests are served, the [File] rows present before are still there,
    unchanged and in the same places, and the [Analysis] rows present
    before keep their place, their id and their file id (only [result] is
    ever reassigned). *)
Theorem rows_are_kept (rs : list request) (db : Store) :
  files db `prefix_of` files (serve rs db).2
  ∧ (λ a, (Analysis.id a, Analysis.file_id a)) <$> analysis db
    `prefix_of`
    (λ a, (Analysis.id a, Analysis.file_id a)) <$> analysis (serve rs db).2.
Proof.
  split.
  - apply (serve_invariant (λ db', files db `prefix_of` files db')); [|done].
    intros r db' Hpre. etrans; [done|]. apply handle_files_prefix.
  - apply (serve_invariant (λ db',
      (λ a, (Analysis.id a, Analysis.file_id a)) <$> analysis db
      `prefix_of` (λ a, (Analysis.id a, Analysis.file_id a)) <$> analysis db'));
      [|done].
    intros r db' Hpre. etrans; [done|]. apply handle_analysis_keys_prefix.
Qed.

(** ** Primary keys of the [files] table *)

Lemma handle_file_ids (r : request) (db : Store) :
  NoDup (FileModel.id <$> files db) →
  NoDup (FileModel.id <$> files (handle r db).2).
Proof.
  intros Hnodup.
  destruct (handle_files_cases r db) as [->|(n & c & now & Hn & _ & ->)]; [done|].
  rewrite upload_file_files by done. rewrite fmap_app.
  apply NoDup_app. split_and!; [done | | apply NoDup_singleton].
  intros i Hi Hnew. simpl in Hnew. apply list_elem_of_singleton in Hnew.
  apply list_elem_of_fmap in Hi as (row & -> & Hrow).
  pose proof (next_id_above FileModel.id _ row Hrow). lia.
Qed.

Lemma reachable_file_ids (db : Store) :
  reachable db → NoDup (FileModel.id <$> files db).
Proof.
  intros [rs <-].
  apply (serve_invariant (λ db, NoDup (FileModel.id <$> files db))).
  - apply handle_file_ids.
  - apply NoDup_nil_2.
Qed.

(** With distinct ids the query by id finds the row itself. *)
Lemma file_by_id_row (row : FileModel.t) (db : Store) :
  NoDup (FileModel.id <$> files db) → row ∈ files db →
  file_by_id (FileModel.id row) db = Some row.
Proof.
  unfold file_by_id, first. generalize (files db). clear db.
  intros rows. induction rows as [|x rows IH]; intros Hnodup Hrow.
  - by apply not_elem_of_nil in Hrow.
  - rewrite fmap_cons in Hnodup. apply NoDup_cons in Hnodup as [Hx Hnodup].
    apply elem_of_cons in Hrow as [->|Hrow].
    + by rewrite filter_cons_True.
    + rewrite filter_cons_False; [by apply IH|].
      intros Heq. apply Hx. rewrite Heq. by apply list_elem_of_fmap_2.
Qed.

(** X3. In every store the service can reach, file ids are distinct and
    every stored [File] row is served by [get_file_info] under its id, with
    the fields of that very row. *)
Theorem stored_files_are_fetched (rs : list request) (row : FileModel.t) :
  let db := (serve rs fresh).2 in
  NoDup (FileModel.id <$> files db)
  ∧ (row ∈ files db →
     get_file_info (FileModel.id row) db = (Ok (file_response row), db)).
Proof.
  intros db.
  assert (NoDup (FileModel.id <$> files db)) as Hnodup.
  { apply reachable_file_ids. by exists rs. }
  split; [done|]. intros Hrow. unfold get_file_info.
  by rewrite file_by_id_row.
Qed.

(** ** Round trips *)

Lemma file_by_id_new (rows : list FileModel.t) (new : FileModel.t) :
  (∀ row, row ∈ rows → FileModel.id row ≠ FileModel.id new) →
  first (filter (λ f, FileModel.id f = FileModel.id new) (rows ++ [new]))
  = Some new.
Proof.
  intros Hfresh. unfold first. rewrite filter_app, head_app.
  replace (filter _ rows) with (@nil FileModel.t).
  - simpl. by rewrite filter_cons_True.
  - symmetry. apply head_None.
    by apply (first_filter_None (λ f, FileModel.id f = FileModel.id new)).
Qed.

Lemma file_by_id_uploaded (n : string) (contents : list byte) (now : datetime)
    (db : Store) :
  file_by_id (next_id FileModel.id (files db))
    {| files := files db ++
         [FileModel.mk (next_id FileModel.id (files db)) n (next_version n db)
            (path_join STORAGE_DIR (n +:+ "_v" +:+ str (next_version n db)))
            (Z.of_nat (length contents)) 1 now];
       analysis := analysis db;
       storage :=
         <[path_join STORAGE_DIR (n +:+ "_v" +:+ str (next_version n db))
           := contents]> (storage db) |}
  = Some (FileModel.mk (next_id FileModel.id (files db)) n (next_version n db)
            (path_join STORAGE_DIR (n +:+ "_v" +:+ str (next_version n db)))
            (Z.of_nat (length contents)) 1 now).
Proof.
  unfold file_by_id. cbn [files].
  apply (file_by_id_new (files db)
    (FileModel.mk (next_id FileModel.id (files db)) n (next_version n db)
       (path_join STORAGE_DIR (n +:+ "_v" +:+ str (next_version n db)))
       (Z.of_nat (length contents)) 1 now)).
  intros row Hrow. simpl.
  pose proof (next_id_above FileModel.id _ row Hrow). lia.
Qed.

(** X4. What an upload answers is what [get_file_info] answers afterwards
    under the id of the upload, in any store: same id, name, version, size
    and time stamp; the size is the number of bytes sent. *)
Theorem upload_then_get_file_info (n : string) (contents : list byte)
    (now : datetime) (db : Store) :
  n ≠ "" →
  ∃ body db',
    upload_file (Some n) contents now Written db = (Ok body, db')
    ∧ FileUploadResponse.file_name body = n
    ∧ FileUploadResponse.size body = Z.of_nat (length contents)
    ∧ FileUploadResponse.uploaded_at body = now
    ∧ get_file_info (FileUploadResponse.id body) db'
      = (Ok {| FileResponse.id := FileUploadResponse.id body;
               FileResponse.file_name := FileUploadResponse.file_name body;
               FileResponse.version := FileUploadResponse.version body;
               FileResponse.size := FileUploadResponse.size body;
               FileResponse.uploaded_at := FileUploadResponse.uploaded_at body |},
         db').
Proof.
  intros Hn. eexists _, _. split; [by apply upload_file_written|].
  split_and!; [done..|]. unfold get_file_info.
  cbn [FileUploadResponse.id]. by rewrite file_by_id_uploaded.
Qed.

Lemma upload_then_get_file_info_witness :
  ∃ body db',
    upload_file (Some "info.pdf") [x2a; x2b]%byte 10 Written fresh = (Ok body, db')
    ∧ FileUploadResponse.file_name body = "info.pdf"
    ∧ FileUploadResponse.size body = 2
    ∧ FileUploadResponse.uploaded_at body = 10
    ∧ get_file_info (FileUploadResponse.id body) db'
      = (Ok {| FileResponse.id := FileUploadResponse.id body;
               FileResponse.file_name := FileUploadResponse.file_name body;
               FileResponse.version := FileUploadResponse.version body;
               FileResponse.size := FileUploadResponse.size body;
               FileResponse.uploaded_at := FileUploadResponse.uploaded_at body |},
         db').
Proof.
  apply (upload_then_get_file_info "info.pdf" [x2a; x2b]%byte 10 fresh). done.
Defined.

(** The row that a query finds after [analyze_file] holds the text of the
    response. *)
Lemma analyze_file_stored_result (f : Z) (db : Store)
    (body : AnalysisResponse.t) :
  (analyze_file f db).1 = Ok body →
  ∃ a, analysis_of f (analyze_file f db).2 = Some a
    ∧ Analysis.id a = AnalysisResponse.analysis_id body
    ∧ Analysis.result a = AnalysisResponse.result body.
Proof.
  unfold analyze_file. destruct (file_by_id f db) as [row|]; [|done].
  destruct (analysis_of f db) as [existing|] eqn:Hex; cbn [fst snd];
    intros [= <-]; unfold analysis_of, first in *; cbn [analysis].
  - rewrite update_result_filter.
    destruct (filter _ (analysis db)) as [|a rows]; simplify_eq/=.
    rewrite bool_decide_eq_true_2 by done. by eexists.
  - rewrite filter_app, head_app. apply head_None in Hex. rewrite Hex.
    rewrite filter_cons_True by done. by eexists.
Qed.

(** X5. After a successful analyze of a file, in any store, [get_analysis]
    for that file succeeds and returns the result text of the analyze
    response together with the name and version of the file row. *)
Theorem analyze_then_get_analysis (f : Z) (db : Store)
    (body : AnalysisResponse.t) :
  (analyze_file f db).1 = Ok body →
  ∃ row, file_by_id f db = Some row
    ∧ AnalysisResponse.file_id body = f
    ∧ AnalysisResponse.result body
      = mock_ai_analysis (FileModel.original_name row) (FileModel.size row)
          (FileModel.version row)
    ∧ get_analysis f (analyze_file f db).2
      = (Ok {| AnalysisResultResponse.file_id := f;
               AnalysisResultResponse.file_name := FileModel.original_name row;
               AnalysisResultResponse.version := FileModel.version row;
               AnalysisResultResponse.analysis_result :=
                 AnalysisResponse.result body |},
         (analyze_file f db).2).
Proof.
  intros Hbody.
  destruct (analyze_file_stored_result f db body Hbody) as (a & Ha & _ & Hres).
  destruct (file_by_id f db) as [row|] eqn:Hrow.
  - exists row. split; [done|]. split; [by eapply analyze_file_file_id|].
    split.
    + unfold analyze_file in Hbody. rewrite Hrow in Hbody.
      by destruct (analysis_of f db); simplify_eq/=.
    + unfold get_analysis.
      rewrite (file_by_id_files f _ db) by apply analyze_file_files.
      by rewrite Hrow, Ha, Hres.
  - unfold analyze_file in Hbody. by rewrite Hrow in Hbody.
Qed.

Lemma analyze_then_get_analysis_witness :
  let db := (upload_file (Some "test.pdf") [x2a]%byte 10 Written fresh).2 in
  ∃ body, (analyze_file 1 db).1 = Ok body
    ∧ (get_analysis 1 (analyze_file 1 db).2).1
      = Ok {| AnalysisResultResponse.file_id := 1;
              AnalysisResultResponse.file_name := "test.pdf";
              AnalysisResultResponse.version := 1;
              AnalysisResultResponse.analysis_result :=
                AnalysisResponse.result body |}.
Proof.
  intros db. eexists. split; [reflexivity|].
  destruct (analyze_then_get_analysis 1 db _ eq_refl)
    as (row & Hrow & _ & _ & ->).
  by injection Hrow as <-.
Defined.

Lemma update_result_twice (i : Z) (r : string) (rows : list Analysis.t) :
  update_result i r (update_result i r rows) = update_result i r rows.
Proof.
  unfold update_result. rewrite <-list_fmap_compose. apply list_fmap_ext.
  intros _ a _. simpl. by repeat (case_bool_decide; simpl).
Qed.

(** X6. Analysing a file twice is the same as analysing it once, in any
    store: the second call gives the same response and leaves the store
    that the first call left. *)
Theorem analyze_file_idempotent (f : Z) (db : Store) :
  analyze_file f (analyze_file f db).2 = analyze_file f db.
Proof.
  unfold analyze_file at 2.
  destruct (file_by_id f db) as [row|] eqn:Hrow;
    [|cbn [snd]; unfold analyze_file; by rewrite Hrow].
  set (r := mock_ai_analysis (FileModel.original_name row) (FileModel.size row)
              (FileModel.version row)).
  destruct (analysis_of f db) as [existing|] eqn:Hex; cbn [snd].
  - match goal with |- analyze_file f ?d = _ => set (db1 := d) end.
    assert (file_by_id f db1 = Some row) as Hrow1 by exact Hrow.
    assert (analysis_of f db1 = Some (Analysis.set_result r existing)) as Hex1.
    { unfold analysis_of, first, db1 in *. cbn [analysis].
      rewrite update_result_filter.
      destruct (filter _ (analysis db)) as [|a rows]; simplify_eq/=.
      by rewrite bool_decide_eq_true_2. }
    unfold analyze_file. rewrite Hrow1, Hex1, Hrow, Hex. unfold db1. simpl.
    by rewrite update_result_twice.
  - match goal with |- analyze_file f ?d = _ => set (db1 := d) end.
    assert (file_by_id f db1 = Some row) as Hrow1 by exact Hrow.
    assert (analysis_of f db1
            = Some (Analysis.mk (next_id Analysis.id (analysis db)) f r)) as Hex1.
    { unfold analysis_of, first, db1 in *. cbn [analysis].
      rewrite filter_app, head_app. apply head_None in Hex. rewrite Hex.
      by rewrite filter_cons_True. }
    unfold analyze_file. rewrite Hrow1, Hex1, Hrow, Hex. unfold db1. simpl.
    do 2 f_equal. unfold update_result. rewrite fmap_app. f_equal.
    + rewrite <-(list_fmap_id (analysis db)) at 2. apply list_fmap_ext.
      intros k x Hx. simpl. apply list_elem_of_lookup_2 in Hx.
      pose proof (next_id_above Analysis.id _ x Hx).
      rewrite bool_decide_eq_false_2; [done|lia].
    + simpl. by rewrite bool_decide_eq_true_2.
Qed.

(** ** The versions stored for a name *)


Lemma NoDup_fmap_eq {A B} (f : A → B) (l : list A) (x y : A) :
  NoDup (f <$> l) → x ∈ l → y ∈ l → f x = f y → x = y.
Proof.
  intros Hnodup Hx Hy Hf.
  apply list_elem_of_lookup_1 in Hx as [i Hi].
  apply list_elem_of_lookup_1 in Hy as [j Hj].
  assert (i = j) as ->; [|congruence].
  eapply NoDup_lookup; [exact Hnodup | |].
  - by rewrite list_lookup_fmap, Hi.
  - rewrite list_lookup_fmap, Hj. simpl. by rewrite Hf.
Qed.





(** ** Analysis rows and the files they belong to *)

Lemma file_by_id_prefix (g : Z) (db db' : Store) (row : FileModel.t) :
  files db `prefix_of` files db' →
  file_by_id g db = Some row → file_by_id g db' = Some row.
Proof.
  intros [more Hfiles] Hrow. unfold file_by_id, first in *.
  rewrite Hfiles, filter_app, head_app. by rewrite Hrow.
Qed.

Lemma handle_analyses_current (r : request) (db : Store) :
  analysis_table_ok db → analyses_current db →
  analyses_current (handle r db).2.
Proof.
  intros [Hnodup _] Hcur a Ha.
  assert (∀ g row, file_by_id g db = Some row →
            file_by_id g (handle r db).2 = Some row) as Hkeep.
  { intros g row. apply file_by_id_prefix, handle_files_prefix. }
  rewrite handle_analysis in Ha.
  assert (a ∈ analysis db →
    ∃ row, file_by_id (Analysis.file_id a) (handle r db).2 = Some row
      ∧ Analysis.result a
        = mock_ai_analysis (FileModel.original_name row) (FileModel.size row)
            (FileModel.version row)) as Hold.
  { intros Hin. destruct (Hcur a Hin) as (row & Hrow & Hres).
    exists row. split; [by apply Hkeep | done]. }
  destruct r as [| |g| |]; try by apply Hold.
  rewrite analyze_file_analysis in Ha.
  destruct (file_by_id g db) as [row|] eqn:Hrow; [|by apply Hold].
  destruct (analysis_of g db) as [existing|] eqn:Hex.
  - apply first_filter_Some in Hex as [Hexin Hfid].
    unfold update_result in Ha.
    apply list_elem_of_fmap in Ha as (a0 & -> & Ha0).
    case_bool_decide as Hid; [|by apply Hold].
    assert (a0 = existing) as ->
      by (by apply (NoDup_fmap_eq Analysis.id (analysis db))).
    exists row. simpl. rewrite Hfid. split; [by apply Hkeep | done].
  - apply elem_of_app in Ha as [Ha|Ha]; [by apply Hold|].
    apply list_elem_of_singleton in Ha as ->.
    exists row. simpl. split; [by apply Hkeep | done].
Qed.

Lemma reachable_analyses_current (db : Store) :
  reachable db → analyses_current db.
Proof.
  intros [rs <-].
  apply (serve_invariant (λ db, analysis_table_ok db ∧ analyses_current db)).
  - intros r db [Hok Hcur]. split; [by apply handle_ok|].
    by apply handle_analyses_current.
  - split.
    + split; [apply NoDup_nil_2|]. intros f. unfold analyses_for. simpl. lia.
    + intros a Ha. by apply not_elem_of_nil in Ha.
Qed.

(** X8. In every store the service can reach, each [Analysis] row belongs
    to a stored [File] row, and a successful [get_analysis] returns the
    name and version of that file together with the analysis text of the
    file as it is stored: a stored result is never out of date. *)
Theorem stored_analysis_is_current (rs : list request) (f : Z) :
  let db := (serve rs fresh).2 in
  (∀ a, a ∈ analysis db →
     ∃ row, row ∈ files db ∧ FileModel.id row = Analysis.file_id a)
  ∧ (∀ body, (get_analysis f db).1 = Ok body →
       ∃ row, row ∈ files db ∧ FileModel.id row = f
         ∧ AnalysisResultResponse.file_id body = f
         ∧ AnalysisResultResponse.file_name body = FileModel.original_name row
         ∧ AnalysisResultResponse.version body = FileModel.version row
         ∧ AnalysisResultResponse.analysis_result body
           = mock_ai_analysis (FileModel.original_name row)
               (FileModel.size row) (FileModel.version row)).
Proof.
  intros db.
  assert (analyses_current db) as Hcur.
  { apply reachable_analyses_current. by exists rs. }
  split.
  - intros a Ha. destruct (Hcur a Ha) as (row & Hrow & _).
    apply first_filter_Some in Hrow as [Hin Hid]. by exists row.
  - intros body. unfold get_analysis.
    destruct (file_by_id f db) as [row|] eqn:Hrow; [|done].
    destruct (analysis_of f db) as [a|] eqn:Ha; [|done].
    cbn [fst]. intros [= <-]. simpl.
    pose proof Hrow as Hrow0.
    apply first_filter_Some in Hrow as [Hin Hid].
    apply first_filter_Some in Ha as [Hain Hfid].
    destruct (Hcur a Hain) as (row' & Hrow' & Hres).
    rewrite Hfid, Hrow0 in Hrow'. injection Hrow' as <-.
    exists row. by split_and!.
Qed.

(** ** Names on disk *)

Lemma has_char_app (c : ascii) (a b : string) :
  has_char c (a +:+ b) = has_char c a || has_char c b.
Proof.
  induction a as [|d a IH]; [done|].
  rewrite string_app_cons. simpl. by rewrite IH, orb_assoc.
Qed.

Lemma pretty_N_char_not_underscore (x : N) : pretty_N_char x ≠ "_"%char.
Proof. unfold pretty_N_char. by repeat case_match. Qed.

Lemma pretty_N_go_no_underscore (x : N) (s : string) :
  has_char "_" s = false → has_char "_" (pretty_N_go x s) = false.
Proof.
  revert s. induction (N.lt_wf_0 x) as [x _ IH]; intros s Hs.
  destruct (decide (x = 0)%N) as [->|Hx]; [by rewrite pretty_N_go_0|].
  rewrite pretty_N_go_step by lia. apply IH.
  - apply N.div_lt; lia.
  - simpl. rewrite Hs, orb_false_r. apply bool_decide_eq_false_2.
    apply pretty_N_char_not_underscore.
Qed.

(** A printed integer has digits and at most a sign, no underscore. *)
Lemma str_no_underscore (v : Z) : has_char "_" (str v) = false.
Proof.
  unfold str, pretty, pretty_Z. destruct v as [|p|p]; [done|..].
  - unfold pretty, pretty_positive, pretty, pretty_N.
    case_decide; [done|]. by apply pretty_N_go_no_underscore.
  - rewrite has_char_app. simpl.
    unfold pretty, pretty_positive, pretty, pretty_N.
    case_decide; [done|]. by apply pretty_N_go_no_underscore.
Qed.

Ltac norm_app H :=
  repeat (rewrite string_app_cons in H || rewrite string_app_nil in H).

Lemma suffix_split (a b d1 d2 : string) :
  has_char "_" d1 = false → has_char "_" d2 = false →
  a +:+ "_v" +:+ d1 = b +:+ "_v" +:+ d2 → a = b ∧ d1 = d2.
Proof.
  intros Hd1 Hd2. revert b.
  induction a as [|c a IH]; intros [|c' b] Heq.
  - norm_app Heq. by simplify_eq.
  - exfalso. norm_app Heq. injection Heq as <- Heq.
    destruct b as [|c'' b]; norm_app Heq; [discriminate Heq|].
    injection Heq as <- Heq. rewrite Heq, has_char_app in Hd1.
    simpl in Hd1. by rewrite orb_true_r in Hd1.
  - exfalso. norm_app Heq. injection Heq as -> Heq.
    destruct a as [|c'' a]; norm_app Heq; [discriminate Heq|].
    injection Heq as -> Heq. rewrite <-Heq, has_char_app in Hd2.
    simpl in Hd2. by rewrite orb_true_r in Hd2.
  - rewrite !(string_app_cons _ _ (_ +:+ _)) in Heq. injection Heq as -> Heq.
    by destruct (IH b Heq) as [-> ->].
Qed.

(** The name on disk tells the file name and the version. *)
Lemma filename_on_disk_inj (n m : string) (v w : Z) :
  filename_on_disk n v = filename_on_disk m w → n = m ∧ v = w.
Proof.
  unfold filename_on_disk. intros Heq.
  apply suffix_split in Heq as [-> Hstr]; [|apply str_no_underscore..].
  split; [done|]. by apply str_inj.
Qed.

Lemma is_absolute_true (p : string) :
  is_absolute p = true → ∃ rest, p = String "/" rest.
Proof.
  destruct p as [|c p]; [done|]. simpl.
  destruct (Ascii.eqb_spec c "/") as [->|Hc]; [by eexists|].
  by destruct c as [[] [] [] [] [] [] [] []].
Qed.

Lemma path_join_storage (p : string) :
  path_join STORAGE_DIR p
  = if is_absolute p then p else "./storage/" +:+ p.
Proof. unfold path_join. by destruct (is_absolute p). Qed.

(** Different names on disk are different paths. *)
Lemma storage_path_inj (a b : string) :
  path_join STORAGE_DIR a = path_join STORAGE_DIR b → a = b.
Proof.
  rewrite !path_join_storage.
  destruct (is_absolute a) eqn:Ha, (is_absolute b) eqn:Hb; intros Heq.
  - done.
  - apply is_absolute_true in Ha as [rest ->]. norm_app Heq. discriminate Heq.
  - apply is_absolute_true in Hb as [rest ->]. norm_app Heq. discriminate Heq.
  - by apply (inj (String.app _)) in Heq.
Qed.

(** ** Files on disk *)

Lemma analyze_file_storage (f : Z) (db : Store) :
  storage (analyze_file f db).2 = storage db.
Proof.
  unfold analyze_file. destruct (file_by_id f db); [|done].
  by destruct (analysis_of f db).
Qed.

(** What a request does to the [files] table and to the storage directory:
    nothing, a completed upload, or a write that fails part-way. *)
Lemma handle_store_cases (r : request) (db : Store) :
  (files (handle r db).2 = files db ∧ storage (handle r db).2 = storage db)
  ∨ (∃ n contents now,
       n ≠ "" ∧ (handle r db).2 = (upload_file (Some n) contents now Written db).2)
  ∨ (∃ n left_behind,
       n ≠ "" ∧ files (handle r db).2 = files db
       ∧ storage (handle r db).2
         = <[path_join STORAGE_DIR (filename_on_disk n (next_version n db))
             := left_behind]> (storage db)).
Proof.
  rewrite handle_eq. destruct r as [[n|] contents now io | | f | f | f]; cbn [snd].
  - destruct (decide (n = "")) as [->|Hn]; [by left; destruct io|].
    destruct io as [| |left_behind].
    + right. left. by exists n, contents, now.
    + left. by destruct n.
    + right. right. exists n, left_behind. by destruct n.
  - by left.
  - by left.
  - left. by rewrite analyze_file_files, analyze_file_storage.
  - left. by rewrite get_analysis_store.
  - left. by rewrite get_file_info_store.
Qed.

Lemma next_version_positive (n : string) (db : Store) :
  (∀ row, row ∈ files db → 1 ≤ FileModel.version row) →
  1 ≤ next_version n db.
Proof.
  intros Hpos. unfold next_version, latest_version.
  destruct (first _) as [top|] eqn:Htop; [|done].
  apply first_order_by_desc_Some in Htop as [Hin _].
  apply list_elem_of_filter in Hin as [_ Hin]. specialize (Hpos top Hin). lia.
Qed.

(** The path of the next upload of a name is the path of no stored row. *)
Lemma next_path_is_new (n : string) (db : Store) (row : FileModel.t) :
  files_on_disk db → row ∈ files db →
  FileModel.path row
  ≠ path_join STORAGE_DIR (filename_on_disk n (next_version n db)).
Proof.
  intros Hdisk Hrow Heq.
  destruct (Hdisk row Hrow) as [(_ & _ & _ & _ & Hpath) _].
  rewrite Hpath in Heq.
  apply storage_path_inj, filename_on_disk_inj in Heq as [Hname Hversion].
  pose proof (next_version_below n db row Hrow Hname). lia.
Qed.

Lemma handle_storage_kept (r : request) (db : Store) (row : FileModel.t) :
  files_on_disk db → row ∈ files db →
  storage (handle r db).2 !! FileModel.path row
  = storage db !! FileModel.path row.
Proof.
  intros Hdisk Hrow.
  destruct (handle_store_cases r db)
    as [[_ ->]|[(n & c & now & Hn & ->)|(n & part & Hn & _ & ->)]]; [done|..].
  - rewrite upload_file_written by done. cbn [storage].
    apply lookup_insert_ne. intros Heq.
    by apply (next_path_is_new n db row).
  - apply lookup_insert_ne. intros Heq. by apply (next_path_is_new n db row).
Qed.

Lemma handle_files_on_disk (r : request) (db : Store) :
  files_on_disk db → files_on_disk (handle r db).2.
Proof.
  intros Hdisk row Hrow.
  pose proof (handle_storage_kept r db) as Hkept.
  destruct (handle_store_cases r db)
    as [[Hf Hs]|[(n & c & now & Hn & Heq)|(n & part & Hn & Hf & Hs)]].
  - rewrite Hf in Hrow. rewrite Hkept by done. by apply Hdisk.
  - rewrite Heq in Hrow, Hkept |- *.
    rewrite upload_file_files in Hrow by done.
    apply elem_of_app in Hrow as [Hrow|Hrow].
    { rewrite Hkept by done. by apply Hdisk. }
    apply list_elem_of_singleton in Hrow as ->.
    rewrite upload_file_written by done. cbn [storage FileModel.path].
    split.
    + split_and!; simpl; [done | | lia | done | done].
      apply next_version_positive. intros row Hrow.
      by destruct (Hdisk row Hrow) as [(_ & ? & _) _].
    + exists c. split; [|done]. apply lookup_insert_eq.
  - rewrite Hf in Hrow. rewrite Hkept by done. by apply Hdisk.
Qed.

Lemma reachable_files_on_disk (db : Store) : reachable db → files_on_disk db.
Proof.
  intros [rs <-]. apply (serve_invariant files_on_disk).
  - apply handle_files_on_disk.
  - intros row Hrow. by apply not_elem_of_nil in Hrow.
Qed.

(** X9. In every store the service can reach, each [File] row has a file
    name that is not empty, a version of at least 1, a size that is not
    negative, uploader 1, and the path [STORAGE_DIR] joined with
    [{name}_v{version}]. *)
Theorem stored_rows_are_well_formed (rs : list request) (row : FileModel.t) :
  row ∈ files (serve rs fresh).2 →
  FileModel.original_name row ≠ ""
  ∧ 1 ≤ FileModel.version row
  ∧ 0 ≤ FileModel.size row
  ∧ FileModel.uploaded_by row = 1
  ∧ FileModel.path row
    = path_join STORAGE_DIR
        (FileModel.original_name row +:+ "_v" +:+ str (FileModel.version row)).
Proof.
  intros Hrow.
  assert (files_on_disk (serve rs fresh).2) as Hdisk.
  { apply reachable_files_on_disk. by exists rs. }
  by destruct (Hdisk row Hrow) as [Hok _].
Qed.

Lemma stored_rows_are_well_formed_witness :
  ("test.pdf" : string) ≠ ""
  ∧ (1 : Z) ≤ 2
  ∧ (0 : Z) ≤ 1
  ∧ (1 : Z) = 1
  ∧ "./storage/test.pdf_v2" = path_join STORAGE_DIR ("test.pdf" +:+ "_v" +:+ str 2).
Proof.
  apply (stored_rows_are_well_formed
    [Upload (Some "test.pdf") [x2a]%byte 10 Written;
     Upload (Some "test.pdf") [x2b]%byte 20 Written]
    (FileModel.mk 2 "test.pdf" 2 "./storage/test.pdf_v2" 1 1 20)).
  vm_compute. right. left.
Defined.



(** ** Where an upload writes *)

Lemma is_absolute_app (n rest : string) :
  n ≠ "" → is_absolute (n +:+ rest) = is_absolute n.
Proof. intros Hn. by destruct n. Qed.

(** X11. A completed upload writes exactly the bytes sent to the path it
    records in the row.  For a file name that does not start with a slash
    that path is [./storage/{name}_v{version}]; for a file name that starts
    with a slash [os.path.join] drops the storage directory and the path is
    [{name}_v{version}] itself. *)
Theorem upload_writes_where_it_records (n : string) (contents : list byte)
    (now : datetime) (db : Store) :
  n ≠ "" →
  ∃ body db' row,
    upload_file (Some n) contents now Written db = (Ok body, db')
    ∧ files db' = files db ++ [row]
    ∧ FileModel.id row = FileUploadResponse.id body
    ∧ storage db' !! FileModel.path row = Some contents
    ∧ FileModel.path row
      = (if is_absolute n then "" else "./storage/")
        +:+ n +:+ "_v" +:+ str (FileUploadResponse.version body).
Proof.
  intros Hn. eexists _, _, _. split; [by apply upload_file_written|].
  cbn [files storage]. split; [done|]. split; [done|]. simpl.
  split; [apply lookup_insert_eq|].
  rewrite path_join_storage, is_absolute_app by done.
  by destruct (is_absolute n).
Qed.

Lemma upload_writes_where_it_records_witness :
  ∃ body db' row,
    upload_file (Some "/tmp/x") [x2a]%byte 10 Written fresh = (Ok body, db')
    ∧ files db' = files fresh ++ [row]
    ∧ FileModel.id row = FileUploadResponse.id body
    ∧ storage db' !! FileModel.path row = Some [x2a]%byte
    ∧ FileModel.path row
      = "" +:+ "/tmp/x" +:+ "_v" +:+ str (FileUploadResponse.version body).
Proof.
  apply (upload_writes_where_it_records "/tmp/x" [x2a]%byte 10 fresh). done.
Defined.

(** ** The analysis text, whatever the bucket *)

(** X12. Whatever the size, the analysis text starts with the file name in
    quotes and gives the size in bytes in parentheses. *)
Theorem mock_ai_analysis_names_file_and_size (file_name : string)
    (s version : Z) :
  (∃ rest, mock_ai_analysis file_name s version
           = "Файл '" +:+ file_name +:+ "' " +:+ rest)
  ∧ contains ("(" +:+ str s +:+ " байт)") (mock_ai_analysis file_name s version).
Proof.
  unfold mock_ai_analysis.
  repeat case_bool_decide;
    unfold small_text, relatively_small_text, medium_text, large_text.
  - split; [by eexists|]. apply contains_app_l, contains_app_l.
    exists "' очень маленький ", (", версия " +:+ str version +:+ ". Изменения минимальны.").
    by rewrite !string_app_assoc.
  - split; [by eexists|]. apply contains_app_l, contains_app_l.
    exists "' относительно небольшой ", ", новое изменение выглядит незначительным.".
    by rewrite !string_app_assoc.
  - split; [by eexists|]. apply contains_app_l, contains_app_l.
    exists "' среднего размера ",
      (", версия " +:+ str version +:+ ". Возможны существенные изменения.").
    by rewrite !string_app_assoc.
  - split; [by eexists|]. apply contains_app_l, contains_app_l.
    exists "' большой ",
      (", версия " +:+ str version
         +:+ ". Документ содержит значительный объем данных.").
    by rewrite !string_app_assoc.
Qed.

(** ** The listing and the rows *)

Lemma handle_files_length (r : request) (db : Store) :
  length (files (handle r db).2)
  = (length (files db) + if is_completed_upload r then 1 else 0)%nat.
Proof.
  rewrite handle_eq. destruct r as [[n|] contents now io | | f | f | f];
    cbn [snd is_completed_upload].
  - destruct (decide (n = "")) as [->|Hn].
    { destruct io; simpl; lia. }
    destruct io; rewrite ?bool_decide_eq_true_2 by done.
    + rewrite upload_file_files, length_app by done. simpl. lia.
    + destruct n; [done|]. simpl. lia.
    + destruct n; [done|]. simpl. lia.
  - simpl. lia.
  - simpl. lia.
  - rewrite analyze_file_files. lia.
  - rewrite get_analysis_store. lia.
  - rewrite get_file_info_store. lia.
Qed.

Lemma serve_files_length (rs : list request) (db : Store) :
  length (files (serve rs db).2)
  = (length (files db)
     + length (filter (λ r, is_completed_upload r = true) rs))%nat.
Proof.
  revert db. induction rs as [|r rs IH]; intros db; [simpl; lia|].
  rewrite serve_cons. cbn [snd]. rewrite IH, handle_files_length, filter_cons.
  destruct (is_completed_upload r).
  - rewrite decide_True by done. simpl. lia.
  - rewrite decide_False by done. lia.
Qed.

(** X13. The listing has one entry for each upload that went through, and
    every entry can be fetched: [get_file_info] under the id of an entry
    succeeds with the id, name, version and size of that entry. *)
Theorem listing_covers_uploads (rs : list request) :
  let db := (serve rs fresh).2 in
  ∃ listing, get_files db = (Ok listing, db)
    ∧ length listing
      = length (filter (λ r, is_completed_upload r = true) rs)
    ∧ ∀ item, item ∈ listing →
        ∃ body, get_file_info (FileListItem.id item) db = (Ok body, db)
          ∧ FileResponse.id body = FileListItem.id item
          ∧ FileResponse.file_name body = FileListItem.file_name item
          ∧ FileResponse.version body = FileListItem.version item
          ∧ FileResponse.size body = FileListItem.size item.
Proof.
  intros db. destruct (get_files_sorted db) as (rows & Hlist & Hperm & _).
  exists (file_list_item <$> rows). split; [done|]. split.
  - rewrite length_fmap, Hperm. unfold db. by rewrite serve_files_length.
  - intros item Hitem. apply list_elem_of_fmap in Hitem as (row & -> & Hrow).
    rewrite Hperm in Hrow. exists (file_response row). split; [|done].
    change (FileListItem.id (file_list_item row)) with (FileModel.id row).
    unfold get_file_info. rewrite file_by_id_row; [done| |done].
    apply reachable_file_ids. by exists rs.
Qed.
